(* ===== verification/_CoqProject ===== *)
-Q . S2P
Prelude.v
JsValue.v
JsArray.v
JsDate.v
Json.v
JsonText.v
Store.v
Projector.v
DueDate.v
JsTimSort.v
App.v
View.v
