(* ===== verification/Prelude.v ===== *)
(** * A verification development for the todo_list application

    The program (src/src/App.js and src/src/components/TodoList.js) is a
    React single-page todo manager.  Its parts and how they interact:

    - the store (App.js, [App]): the authoritative list [todos] held in
      React state, the four mutation handlers [addTodo], [toggleTodo],
      [deleteTodo], [updateTodo], the start-up effect [fetchTodos] that
      loads the list from [localStorage] or seeds it from a remote
      JSON source, and the persistence effect that writes the list back
      to [localStorage] after every change that leaves it non-empty;
    - the projector (TodoList.js, [TodoList]): the pure view
      [getFilteredTodos] = [sortTodos] after a status filter, with the
      three comparators of [sortTodos] handed to [Array.prototype.sort];
    - the item editor (TodoItem, TodoForm, TodoStats): not in src/; they
      only call the store's handlers, whose arguments the model takes as
      inputs.

    The JavaScript runtime the code relies on is modelled as far as the
    code exercises it: primitive values and their coercions
    ([ToBoolean], [ToNumber], [ToPropertyKey], [===]), plain objects as
    ordered property lists with the spread operator, [new Date(s)] on
    ISO date strings, and [Array.prototype.sort] through an interface.

    Files, in dependency order:
    - [Prelude] (this file): notation scope [todo_scope], the hint
      database [todo], association lists (the representation of JS
      objects: ordered keys, update in place, append when absent) and
      the generic list lemmas shared by the components.
    - [JsValue]: [num] (an integral double or NaN), [value] (the
      primitives), coercions, strict equality, objects ([obj]) and
      object spread [{...o, ...n}].
    - [JsArray]: [SortCompare] (a NaN result counts as 0), the
      [ArraySort] class that states what [Array.prototype.sort] promises
      to its callers, the reference stable sort by key [key_sort] and its
      specification (sorted, permutation, stable, and unique with these
      three properties), and the engine model [insertion_sort], an
      instance of the class.
    - [JsDate]: the date-only forms of the ECMAScript Date Time String
      Format and [MakeDay], giving the time value of [new Date(s)].
    - [Json]: [JSON.stringify] and [JSON.parse] on arrays of flat
      objects (integers, strings, booleans, null), with the round trip
      [json_parse (stringify l) = Some (map normalize l)] ([undefined]
      properties dropped, NaN read as [null]).  The parser is fuelled
      by the length of the text, which bounds both the number of
      elements and the number of members, so the fuel never runs out on
      a text the printer wrote (lemma [json_parse_stringify]).
    - [JsonText]: the JSON grammar of ECMA-404 as a recogniser
      ([json_scan], a pushdown automaton structurally recursive on the
      text, so total without fuel) and [JSON_parse], what [JSON.parse]
      gives: [Parsed l] for an array of flat objects, [ParsedOther k]
      for any other JSON value of kind [k], [Throws] for a text that is
      not JSON; every text [stringify] writes is JSON and reads back as
      [Parsed] (lemma [JSON_parse_stringify]).
    - [Store] (Module [Store]): the task records and the four handlers
      of App.js, each as the list it produces.
    - [Projector] (Module [TodoList]): [sortTodos] and
      [getFilteredTodos] of TodoList.js ([sort_cmp] is the comparator
      the [switch] selects) and the component's filter and sort
      selectors as a reachability relation.
    - [JsTimSort]: V8's TimSort on arrays of fewer than 64 elements
      ([CountAndMakeRun], then [BinaryInsertionSort], whose search loop
      is an Equations definition by well-founded recursion on
      [hi - lo]); it is a permutation for every comparator and the
      stable sort by key for a key-consistent one, so it meets the
      [ArraySortSpec] contract ([v8_sort_meets_contract]): the theorems
      of [Projector], proved for every engine that meets the contract,
      hold of V8.
    - [DueDate]: the proleptic Gregorian calendar (leap years, month
      lengths, [days_before]) and the text [iso_date y m d] an
      [<input type=date>] writes, as the reference against which
      [MakeDay] is checked: the due-date comparator orders valid dates
      as the calendar does.
    - [App] (Module [App]): the application as a step relation on
      [todos], [loading], [error] and the stored text: [mount] (first
      render and [fetchTodos] up to its [await]), [fetch_done] (the seed
      request settling), [dispatch] (one user event: the handlers'
      [setTodos] calls, value or updater, applied in order by React,
      then the persistence effect) and page reloads.  [mount] and
      [fetch_done] are partial: where the code adopts a JSON value that
      is not an array of flat records (line 19, or a string or such an
      array as the seed, lines 28-29) they return [None] and the model
      says nothing of what follows; a JSON value without [slice] as the
      seed is the TypeError the [catch] records.
    - [View] (Module [View]): what [TodoList] renders (its loading
      card, the count, the selections, the [TodoItem]s keyed by
      [todo.id] or the empty state) and what [App] renders (its loading
      message, or the form, the list and the statistics).

    The theorems, by group (claim ids C1-C29 in the files):
    - handlers (Store): behaviour on every branch, no-op on unknown ids,
      the record-shape and unique-id invariants, add then delete as a
      round trip;
    - projector (Projector): the status filter, the "pending" option
      that shows every record (the code tests the string "false"), each
      comparator driving any engine that meets the sort contract as a
      stable sort by a key (refinement), the resulting orders, and the
      comparators that are not consistent;
    - application (App): the invariant of every reachable state (a
      non-empty list is what [localStorage] holds; the seed is requested
      only when nothing was ever stored), reload restores the list, the
      resurrection of the last task after it is deleted, seeding keeps
      the first five records as served, the error paths (network
      failure, a text that is not JSON, a seed without [slice]), and the
      loss of value updates batched in one event;
    - the views (View): distinct React keys, the error that is never
      shown, and the main area at most one step away;
    - due dates (DueDate): on valid dates written as YYYY-MM-DD the
      due-date comparator is negative exactly when the first date comes
      earlier in the calendar.

    Bounds and fuel: integers are unbounded [Z] where the code's values
    are integral doubles (ids and clock readings are inputs; date values
    are TimeClip-ped and proved within 8.64e15).  The difference of two
    time values can exceed 2^53, where the engine rounds; rounding to
    nearest keeps the sign, and the sort reads only the sign, so the
    exact [Z] difference gives the same sort.  The fuel of [json_parse]
    is discussed above; the JSON recogniser and the binary search need
    none (structural and well-founded recursion).

    Not modelled: markup and styling (the views keep the data they
    show), the child components TodoForm, TodoItem and TodoStats (not in
    src/; their calls are the handlers' inputs), React internals beyond
    the update queue and effects (StrictMode double effects,
    scheduling), the engine's error message texts, what follows the
    adoption of a JSON value that is not an array of flat records
    (fractions, nested values, non-arrays: from a first visit only a
    seed response can bring one, since the application reads back only
    what it wrote; the guard of TodoList.js line 33 is for such a
    value, so the model's [getFilteredTodos] omits it), and V8's
    merging of runs for arrays of 64 elements or more.

    Everything the repository holds under src/src is modelled except
    the import lines and the styling of the markup; what remains (TodoForm, TodoItem,
    TodoStats, the DOM) is not in the repository, so the development
    takes their calls as the handlers' inputs instead of modelling them.
    *)

From stdpp Require Export base list strings gmap.
From Stdlib Require Export ZArith Lia Permutation Sorted Ascii String DecimalString.

Declare Scope todo_scope.
Delimit Scope todo_scope with todo.
Open Scope Z_scope.

Create HintDb todo.
Create Rewrite HintDb todo_rw.

(** ** Association lists: JS objects keep their keys in insertion order *)

Section Assoc.
Context {K V : Type} `{EqDecision K}.

(** [m[k]] on an own property: the first binding of [k]. *)
Fixpoint alookup (k : K) (m : list (K * V)) : option V :=
  match m with
  | [] => None
  | (k', v) :: m' => if decide (k = k') then Some v else alookup k m'
  end.

(** Defining a property: an existing key keeps its position and takes
    the new value, a new key is appended. *)
Fixpoint aset (k : K) (v : V) (m : list (K * V)) : list (K * V) :=
  match m with
  | [] => [(k, v)]
  | (k', v') :: m' =>
      if decide (k = k') then (k, v) :: m' else (k', v') :: aset k v m'
  end.

(** Copying the properties of [n], in order, onto [m]. *)
Definition amerge (m n : list (K * V)) : list (K * V) :=
  fold_left (fun acc kv => aset kv.1 kv.2 acc) n m.

Lemma alookup_aset_eq k v m : alookup k (aset k v m) = Some v.
Proof.
  induction m as [|[k' v'] m IH]; simpl; [by rewrite decide_True|].
  case_decide; simpl; [by rewrite decide_True|by rewrite decide_False].
Qed.

Lemma alookup_aset_ne k k' v m :
  k ≠ k' → alookup k' (aset k v m) = alookup k' m.
Proof.
  intros Hne. induction m as [|[j w] m IH]; simpl.
  - case_decide; [congruence|done].
  - case_decide; simpl; repeat case_decide; congruence.
Qed.

Lemma aset_keys k v m :
  map fst (aset k v m) =
  if decide (k ∈ map fst m) then map fst m else map fst m ++ [k].
Proof.
  induction m as [|[j w] m IH]; simpl; [repeat case_decide; first [done|set_solver]|].
  destruct (decide (k = j)) as [->|Hkj]; simpl.
  - rewrite decide_True; [done|set_solver].
  - rewrite IH. destruct (decide (k ∈ map fst m)).
    + rewrite decide_True; [done|set_solver].
    + rewrite decide_False; [done|set_solver].
Qed.

Lemma alookup_notin k m : k ∉ map fst m → alookup k m = None.
Proof.
  induction m as [|[j w] m IH]; simpl; [done|].
  intros Hk. rewrite decide_False by set_solver. set_solver.
Qed.

(** With distinct keys in [n] (a JS object has no duplicate keys), a
    key of [n] wins over the same key of [m]. *)
Lemma alookup_amerge k m n :
  NoDup (map fst n) →
  alookup k (amerge m n) =
  match alookup k n with Some v => Some v | None => alookup k m end.
Proof.
  unfold amerge. revert m.
  induction n as [|[j w] n IH]; intros m Hnd; simpl; [done|].
  apply NoDup_cons in Hnd as [Hj Hnd]. rewrite IH by done.
  destruct (decide (k = j)) as [->|Hkj].
  - by rewrite alookup_notin, alookup_aset_eq.
  - destruct (alookup k n); [done|]. by rewrite alookup_aset_ne.
Qed.

Lemma alookup_Some_elem k v m : alookup k m = Some v → (k, v) ∈ m.
Proof.
  induction m as [|[j w] m IH]; simpl; [done|].
  case_decide; [intros [= ->]; subst; left|intros; right; auto].
Qed.
Lemma aset_notin k v m : k ∉ map fst m → aset k v m = m ++ [(k, v)].
Proof.
  induction m as [|[j w] m IH]; simpl; [done|]. intros Hk.
  rewrite decide_False by set_solver. rewrite IH by set_solver. done.
Qed.

(** Copying properties with fresh, distinct keys appends them. *)
Lemma amerge_app m n : NoDup (map fst (m ++ n)) → amerge m n = m ++ n.
Proof.
  unfold amerge. revert m.
  induction n as [|[k v] n IH]; intros m Hnd; simpl; [by rewrite app_nil_r|].
  rewrite aset_notin.
  - rewrite IH; [by rewrite <- app_assoc|]. by rewrite <- app_assoc.
  - rewrite map_app in Hnd. apply NoDup_app in Hnd as (_ & Hdis & _).
    intros Hk. apply (Hdis k Hk). simpl. set_solver.
Qed.
End Assoc.

#[export] Hint Rewrite @alookup_aset_eq : todo_rw.

(** ** Lists *)

Section Lists.
Context {A : Type}.

Lemma filter_all_true (f : A → bool) (l : list A) :
  Forall (λ x, f x = true) l → List.filter f l = l.
Proof. induction 1; simpl; [done|]. by rewrite H, IHForall. Qed.

Lemma map_id_on (f : A → A) (l : list A) :
  Forall (λ x, f x = x) l → map f l = l.
Proof. induction 1; simpl; [done|]. by rewrite H, IHForall. Qed.

Lemma Permutation_list_filter (f : A → bool) (l l' : list A) :
  Permutation l l' → Permutation (List.filter f l) (List.filter f l').
Proof.
  induction 1; simpl; try destruct (f x); try destruct (f y);
    eauto using Permutation_trans; constructor.
Qed.

Lemma Forall_list_filter (f : A → bool) (P : A → Prop) (l : list A) :
  Forall P l → Forall P (List.filter f l).
Proof. induction 1; simpl; [done|]. destruct (f x); auto. Qed.

Lemma Forall_list_filter_true (f : A → bool) (l : list A) :
  Forall (λ x, f x = true) (List.filter f l).
Proof.
  induction l as [|x l IH]; simpl; [done|].
  destruct (f x) eqn:E; [constructor|]; done.
Qed.

Lemma list_lookup_map {B} (f : A → B) (l : list A) (i : nat) :
  map f l !! i = f <$> (l !! i).
Proof. revert i. induction l as [|x l IH]; intros [|i]; simpl; auto. Qed.

Lemma NoDup_map_filter {B} (g : A → B) (f : A → bool) (l : list A) :
  NoDup (map g l) → NoDup (map g (List.filter f l)).
Proof.
  induction l as [|x l IH]; simpl; [done|]. intros [Hx Hnd]%NoDup_cons.
  destruct (f x); simpl; [|by auto]. constructor; [|by auto].
  intros Hin. apply Hx. apply list_elem_of_In in Hin.
  apply in_map_iff in Hin as (y & <- & Hy%filter_In).
  apply list_elem_of_In, in_map. tauto.
Qed.

Lemma StronglySorted_lookup (R : A → A → Prop) (l : list A) i j a b :
  StronglySorted R l → (i < j)%nat → l !! i = Some a → l !! j = Some b → R a b.
Proof.
  intros Hs. revert i j. induction Hs as [|x l Hs IH Hx]; intros i j Hij Hi Hj;
    [done|].
  destruct i as [|i], j as [|j]; simpl in *; try lia.
  - injection Hi as <-. eapply Forall_lookup_1; eauto.
  - eapply IH; [|done|done]. lia.
Qed.
End Lists.

#[export] Hint Resolve Permutation_list_filter Forall_list_filter
  Forall_list_filter_true : todo.
