(* ===== verification/JsValue.v ===== *)
(** * JavaScript values as the todo application uses them

    Numbers are integral doubles ([Fin z]) or [NaN]: every number the
    code meets is an integer (Date.now(), ids, the priority ranks, the
    differences of these) or NaN (arithmetic on [undefined] or on an
    object).  Fractions, infinities and -0 are not modelled.  Strings are
    Stdlib strings of 8-bit characters.  Objects are ordered property
    lists; [get] reads an own property and gives [undefined] when there
    is none, which is exact for the field names of a task record since
    none of them is a member of Object.prototype. *)

From S2P Require Import Prelude.

Inductive num := Fin (z : Z) | NaN.

#[export] Instance num_eq_dec : EqDecision num.
Proof. solve_decision. Defined.

(** [a - b] on numbers. *)
Definition num_sub (a b : num) : num :=
  match a, b with
  | Fin x, Fin y => Fin (x - y)
  | _, _ => NaN
  end.

Inductive value :=
  | VUndefined
  | VNull
  | VBool (b : bool)
  | VNum (n : num)
  | VStr (s : string).

#[export] Instance value_eq_dec : EqDecision value.
Proof. solve_decision. Defined.

(** ToBoolean. *)
Definition truthy (v : value) : bool :=
  match v with
  | VUndefined | VNull => false
  | VBool b => b
  | VNum (Fin z) => negb (z =? 0)
  | VNum NaN => false
  | VStr s => negb (String.eqb s "")
  end.

(** [a || b]. *)
Definition js_or (a b : value) : value := if truthy a then a else b.

(** [a === b] on primitives: NaN is not equal to itself. *)
Definition strict_eq (a b : value) : bool :=
  match a, b with
  | VUndefined, VUndefined | VNull, VNull => true
  | VBool x, VBool y => Bool.eqb x y
  | VNum (Fin x), VNum (Fin y) => x =? y
  | VStr s, VStr t => String.eqb s t
  | _, _ => false
  end.

(** ** ToNumber on strings: StringToNumber for decimal integer literals

    Leading and trailing white space (TAB, LF, VT, FF, CR, SP, NBSP) is
    ignored and a blank string is 0.  A sign followed by decimal digits
    is an integer; every other literal (fractions, exponents, hex,
    "Infinity") is read as NaN, which is where the model is coarser than
    the engine. *)

Definition is_ws (c : ascii) : bool :=
  let n := Ascii.nat_of_ascii c in
  ((9 <=? n)%nat && (n <=? 13)%nat) || (n =? 32)%nat || (n =? 160)%nat.

Definition digit (c : ascii) : option Z :=
  let n := Ascii.nat_of_ascii c in
  if ((48 <=? n)%nat && (n <=? 57)%nat) then Some (Z.of_nat n - 48) else None.

Fixpoint skip_ws (s : string) : string :=
  match s with
  | String c s' => if is_ws c then skip_ws s' else s
  | EmptyString => EmptyString
  end.

(** The digits at the front of [s]: their value after [acc], how many,
    and what follows them. *)
Fixpoint scan_digits (s : string) (acc : Z) (n : nat) : Z * nat * string :=
  match s with
  | String c s' =>
      match digit c with
      | Some d => scan_digits s' (acc * 10 + d) (S n)
      | None => (acc, n, s)
      end
  | EmptyString => (acc, n, EmptyString)
  end.

Definition string_to_number (s : string) : num :=
  match skip_ws s with
  | EmptyString => Fin 0
  | s1 =>
      let '(sign, s2) :=
        match s1 with
        | String "+" r => (1, r)
        | String "-" r => (-1, r)
        | _ => (1, s1)
        end in
      let '(z, n, rest) := scan_digits s2 0 0 in
      if (n =? 0)%nat then NaN
      else match skip_ws rest with
           | EmptyString => Fin (sign * z)
           | _ => NaN
           end
  end.

(** ToNumber. *)
Definition to_number (v : value) : num :=
  match v with
  | VUndefined => NaN
  | VNull => Fin 0
  | VBool b => Fin (if b then 1 else 0)
  | VNum n => n
  | VStr s => string_to_number s
  end.

(** Number::toString on integers (decimal; the exponent form the engine
    uses from 1e21 on is not modelled). *)
Definition Z_to_string (z : Z) : string :=
  DecimalString.NilZero.string_of_int (Z.to_int z).

(** ToPropertyKey on primitives. *)
Definition to_property_key (v : value) : string :=
  match v with
  | VUndefined => "undefined"
  | VNull => "null"
  | VBool true => "true"
  | VBool false => "false"
  | VNum (Fin z) => Z_to_string z
  | VNum NaN => "NaN"
  | VStr s => s
  end.

(** ** Objects *)

Abbreviation obj := (list (string * value)).

(** [o.k] for a key that Object.prototype does not define. *)
Definition get (o : obj) (k : string) : value :=
  match alookup k o with Some v => v | None => VUndefined end.

(** [{ ...o, k: v }]. *)
Definition with_prop (o : obj) (k : string) (v : value) : obj := aset k v o.

(** [{ ...o, ...n }]. *)
Definition spread (o n : obj) : obj := amerge o n.

(** The members of Object.prototype: [o[k]] finds them on every plain
    object that has no own property [k]. *)
Definition object_prototype_keys : list string :=
  ["constructor"; "__defineGetter__"; "__defineSetter__"; "hasOwnProperty";
   "__lookupGetter__"; "__lookupSetter__"; "isPrototypeOf";
   "propertyIsEnumerable"; "toString"; "valueOf"; "__proto__";
   "toLocaleString"].

(** [o[k]] on a plain object: an own value, an inherited member (a
    function, or Object.prototype itself for [__proto__]), or nothing. *)
Inductive member := Own (v : value) | Inherited | Missing.

Definition member_get (o : obj) (k : string) : member :=
  match alookup k o with
  | Some v => Own v
  | None => if decide (k ∈ object_prototype_keys) then Inherited else Missing
  end.

(** An object has no duplicate keys. *)
Definition wf_obj (o : obj) : Prop := NoDup (map fst o).

Notation "o .[ k ]" := (get o k) (at level 1, left associativity,
  format "o .[ k ]") : todo_scope.
Notation "a === b" := (strict_eq a b) (at level 65, no associativity) : todo_scope.
Open Scope todo_scope.

(** ** Lemmas *)

Lemma strict_eq_true a b : a === b = true → a = b.
Proof.
  destruct a as [| |x|[x|]|s], b as [| |y|[y|]|t]; simpl; try done.
  - by intros ->%Bool.eqb_prop.
  - by intros ->%Z.eqb_eq.
  - by intros ->%String.eqb_eq.
Qed.

Lemma strict_eq_refl a : a ≠ VNum NaN → a === a = true.
Proof.
  destruct a as [| |x|[x|]|s]; simpl; intros; try done.
  - apply Bool.eqb_reflx.
  - apply Z.eqb_refl.
  - apply String.eqb_refl.
Qed.

Lemma get_with_prop_eq o k v : (with_prop o k v).[k] = v.
Proof. unfold get, with_prop. by rewrite alookup_aset_eq. Qed.

Lemma get_with_prop_ne o k k' v : k ≠ k' → (with_prop o k v).[k'] = o.[k'].
Proof. intros. unfold get, with_prop. by rewrite alookup_aset_ne. Qed.

Lemma wf_with_prop o k v : wf_obj o → wf_obj (with_prop o k v).
Proof.
  unfold wf_obj, with_prop. rewrite aset_keys. case_decide; [done|].
  intros. apply NoDup_app. split_and!; [done| |by apply NoDup_singleton].
  set_solver.
Qed.

Lemma wf_spread o n : wf_obj o → wf_obj (spread o n).
Proof.
  unfold spread, amerge. revert o.
  induction n as [|[k v] n IH]; intros o Ho; simpl; [done|].
  apply IH. by apply (wf_with_prop o k v).
Qed.

Lemma get_spread o n k :
  wf_obj n → (spread o n).[k] = match alookup k n with Some v => v | None => o.[k] end.
Proof.
  intros Hn. unfold get, spread. rewrite alookup_amerge by done.
  by destruct (alookup k n).
Qed.

Lemma with_prop_id o k v : alookup k o = Some v → with_prop o k v = o.
Proof.
  unfold with_prop. induction o as [|[j w] o IH]; simpl; [done|].
  case_decide; [by intros [= ->]; subst|]. intros. by rewrite IH.
Qed.

Lemma with_prop_twice o k v w : with_prop (with_prop o k v) k w = with_prop o k w.
Proof.
  unfold with_prop. induction o as [|[j u] o IH]; simpl.
  - by rewrite decide_True.
  - case_decide; simpl; [by rewrite decide_True|]. rewrite decide_False by done.
    by rewrite IH.
Qed.

Lemma get_some o k v : o.[k] = v → v ≠ VUndefined → alookup k o = Some v.
Proof. unfold get. destruct (alookup k o); congruence. Qed.

(** [{...o}] copies a well-formed object. *)
Lemma spread_nil o : wf_obj o → spread [] o = o.
Proof.
  unfold spread, amerge, wf_obj. intros Hnd.
  cut (∀ acc, NoDup (map fst (acc ++ o)) →
         fold_left (λ acc kv, aset kv.1 kv.2 acc) o acc = acc ++ o).
  { intros H. by apply (H []). }
  induction o as [|[k v] o IH]; intros acc Hacc; simpl; [by rewrite app_nil_r|].
  assert (aset k v acc = acc ++ [(k, v)]) as ->.
  { clear IH Hnd. induction acc as [|[j w] acc IHa]; simpl; [done|].
    simpl in Hacc. apply NoDup_cons in Hacc as [Hj Hacc].
    rewrite decide_False; [by rewrite IHa|].
    intros ->. apply Hj. rewrite map_app. set_solver. }
  rewrite IH; [by rewrite <-app_assoc|by inversion Hnd|by rewrite <-app_assoc].
Qed.

#[export] Hint Resolve wf_with_prop wf_spread : todo.
#[export] Hint Rewrite get_with_prop_eq with_prop_twice : todo_rw.
