(* ===== verification/JsArray.v ===== *)
(** * Array.prototype.sort: what the engine promises and a model of it

    [sortTodos] hands a comparator to [Array.prototype.sort].  The
    comparator's result goes through SortCompare: ToNumber, and NaN
    counts as +0.  ECMAScript fixes the result only for consistent
    comparators; the engines decide every step of the sort by the test
    [SortCompare(a, b) < 0] (V8's TimSort: run detection, binary
    insertion, merging and galloping all compare with [order < 0]).  The
    class [ArraySortSpec] states the resulting contract: the output is a
    permutation of the input, and when the negative answers of the
    comparator are exactly the strict order of some integer key on the
    elements ([lt_by_key]), the output is the stable sort by that key
    ([key_sort]).  The clients' theorems (Projector) are proved against
    the class; [insertion_sort] is an executable instance. *)

From S2P Require Import Prelude JsValue.

(** SortCompare on the comparator's answer. *)
Definition sort_compare {A} (cmp : A → A → num) (x y : A) : Z :=
  match cmp x y with Fin z => z | NaN => 0 end.

(** The negative answers of [cmp] on the elements of [l] are exactly the
    strict order of the key [k]. *)
Definition lt_by_key {A} (cmp : A → A → num) (k : A → Z) (l : list A) : Prop :=
  ∀ x y, x ∈ l → y ∈ l → (sort_compare cmp x y < 0 ↔ k x < k y).

(** ** The reference: stable insertion sort by key *)

Section KeySort.
Context {A : Type} (k : A → Z).

(** [x] goes before the first element of larger key. *)
Fixpoint key_insert (x : A) (l : list A) : list A :=
  match l with
  | [] => [x]
  | y :: l' => if k x <? k y then x :: l else y :: key_insert x l'
  end.

Definition key_sort (l : list A) : list A :=
  fold_left (λ acc x, key_insert x acc) l [].

Definition key_le (x y : A) : Prop := k x ≤ k y.

Definition same_key (z : Z) (x : A) : bool := k x =? z.

(** The elements of each key keep their relative order. *)
Definition stable_wrt (l' l : list A) : Prop :=
  ∀ z, List.filter (same_key z) l' = List.filter (same_key z) l.

Lemma key_insert_perm x l : Permutation (key_insert x l) (x :: l).
Proof.
  induction l as [|y l IH]; simpl; [done|].
  destruct (k x <? k y); [done|].
  rewrite IH. constructor.
Qed.

Lemma key_sort_perm_acc l acc :
  Permutation (fold_left (λ acc x, key_insert x acc) l acc) (acc ++ l).
Proof.
  revert acc. induction l as [|x l IH]; intros acc; simpl.
  - by rewrite app_nil_r.
  - rewrite IH, key_insert_perm. apply Permutation_middle.
Qed.

Lemma key_sort_perm l : Permutation (key_sort l) l.
Proof. apply key_sort_perm_acc. Qed.

Lemma Sorted_key_le_head y l :
  Sorted key_le (y :: l) → ∀ w, w ∈ y :: l → k y ≤ k w.
Proof.
  intros Hs%Sorted_StronglySorted; [|intros a b c; unfold key_le; lia].
  apply StronglySorted_inv in Hs as [_ Hall].
  intros w [->|Hw]%elem_of_cons; [lia|].
  eapply Forall_forall in Hall; [exact Hall|done].
Qed.

Lemma key_insert_sorted x l : Sorted key_le l → Sorted key_le (key_insert x l).
Proof.
  induction 1 as [|y l Hs IH Hhd]; simpl; [by repeat constructor|].
  destruct (k x <? k y) eqn:E.
  - constructor; [by constructor|]. constructor. unfold key_le. lia.
  - constructor; [done|]. inversion Hhd as [|z l' Hyz]; subst; simpl.
    + constructor. unfold key_le. lia.
    + destruct (k x <? k z); constructor; unfold key_le in *; lia.
Qed.

Lemma key_sort_sorted_acc l acc :
  Sorted key_le acc → Sorted key_le (fold_left (λ acc x, key_insert x acc) l acc).
Proof.
  revert acc. induction l as [|x l IH]; intros acc Hs; simpl; [done|].
  by apply IH, key_insert_sorted.
Qed.

Lemma key_sort_sorted l : Sorted key_le (key_sort l).
Proof. by apply key_sort_sorted_acc. Qed.

Lemma filter_same_key_nil z l :
  (∀ w, w ∈ l → k w ≠ z) → List.filter (same_key z) l = [].
Proof.
  induction l as [|w l IH]; intros Hl; simpl; [done|].
  unfold same_key at 1. rewrite (proj2 (Z.eqb_neq _ _)) by set_solver.
  apply IH. set_solver.
Qed.

Lemma key_insert_filter x l z :
  Sorted key_le l →
  List.filter (same_key z) (key_insert x l) =
  List.filter (same_key z) l ++ List.filter (same_key z) [x].
Proof.
  induction l as [|y l IH]; intros Hs; [done|].
  cbn [key_insert]. destruct (k x <? k y) eqn:E.
  - apply Z.ltb_lt in E. change (x :: y :: l) with ([x] ++ y :: l).
    rewrite List.filter_app. destruct (same_key z x) eqn:Ex.
    + assert (List.filter (same_key z) (y :: l) = []) as ->.
      { apply filter_same_key_nil. intros w Hw Hwz.
        unfold same_key in Ex. apply Z.eqb_eq in Ex.
        pose proof (Sorted_key_le_head y l Hs w Hw). lia. }
      by rewrite app_nil_r.
    + assert (List.filter (same_key z) [x] = []) as -> by (simpl; by rewrite Ex).
      by rewrite !app_nil_r.
  - change (y :: key_insert x l) with ([y] ++ key_insert x l).
    change (y :: l) with ([y] ++ l).
    rewrite !List.filter_app, IH by (by apply Sorted_inv in Hs as [? _]).
    by rewrite app_assoc.
Qed.

Lemma key_sort_stable_acc l acc z :
  Sorted key_le acc →
  List.filter (same_key z) (fold_left (λ acc x, key_insert x acc) l acc) =
  List.filter (same_key z) (acc ++ l).
Proof.
  revert acc. induction l as [|x l IH]; intros acc Hs; simpl.
  - by rewrite app_nil_r.
  - rewrite IH by (by apply key_insert_sorted).
    replace (acc ++ x :: l) with ((acc ++ [x]) ++ l) by by rewrite <-app_assoc.
    by rewrite !List.filter_app, key_insert_filter.
Qed.

Lemma key_sort_stable l : stable_wrt (key_sort l) l.
Proof. intros z. unfold key_sort. by rewrite key_sort_stable_acc by constructor. Qed.

Lemma filter_same_key_self x l :
  List.filter (same_key (k x)) (x :: l) = x :: List.filter (same_key (k x)) l.
Proof. cbn [List.filter]. unfold same_key at 1. by rewrite Z.eqb_refl. Qed.

Lemma filter_same_key_other z x l :
  k x ≠ z → List.filter (same_key z) (x :: l) = List.filter (same_key z) l.
Proof. intros. cbn [List.filter]. unfold same_key at 1. by rewrite (proj2 (Z.eqb_neq _ _)). Qed.

Lemma filter_same_key_witness z l :
  List.filter (same_key z) l ≠ [] → ∃ w, w ∈ l ∧ k w = z.
Proof.
  induction l as [|x l IH]; [done|]. destruct (decide (k x = z)) as [<-|Hne].
  - intros _. exists x. split; [left|done].
  - rewrite filter_same_key_other by done. intros (w & ? & ?)%IH.
    exists w. split; [by right|done].
Qed.

(** Two sorted lists with the same elements of each key, in the same
    order, are equal. *)
Lemma sorted_stable_unique l1 l2 :
  Sorted key_le l1 → Sorted key_le l2 → stable_wrt l1 l2 → l1 = l2.
Proof.
  revert l2. induction l1 as [|x r1 IH]; intros [|y r2] H1 H2 Hst.
  - done.
  - specialize (Hst (k y)). by rewrite filter_same_key_self in Hst.
  - specialize (Hst (k x)). by rewrite filter_same_key_self in Hst.
  - assert (k x = k y) as Hxy.
    { destruct (filter_same_key_witness (k x) (y :: r2)) as (w & Hw & Hkw).
      { rewrite <-Hst, filter_same_key_self. done. }
      destruct (filter_same_key_witness (k y) (x :: r1)) as (w' & Hw' & Hkw').
      { rewrite Hst, filter_same_key_self. done. }
      pose proof (Sorted_key_le_head _ _ H2 w Hw).
      pose proof (Sorted_key_le_head _ _ H1 w' Hw'). lia. }
    pose proof (Hst (k x)) as Hx.
    rewrite filter_same_key_self, Hxy, filter_same_key_self in Hx.
    injection Hx as <- _. f_equal. apply IH.
    + by apply Sorted_inv in H1 as [? _].
    + by apply Sorted_inv in H2 as [? _].
    + intros z. specialize (Hst z). destruct (decide (k x = z)) as [<-|Hne].
      * rewrite !filter_same_key_self in Hst. by injection Hst.
      * by rewrite !filter_same_key_other in Hst.
Qed.

(** The specification of a stable sort determines its output. *)
Lemma key_sort_unique l l' :
  Sorted key_le l' → stable_wrt l' l → l' = key_sort l.
Proof.
  intros Hs Hst. apply sorted_stable_unique; [done|apply key_sort_sorted|].
  intros z. by rewrite Hst, key_sort_stable.
Qed.
End KeySort.

Lemma key_sort_lookup_le {A} (k : A → Z) (l : list A) i j a b :
  (i < j)%nat → key_sort k l !! i = Some a → key_sort k l !! j = Some b → k a ≤ k b.
Proof.
  apply (StronglySorted_lookup (key_le k)).
  apply Sorted_StronglySorted; [intros x y z; unfold key_le; lia|apply key_sort_sorted].
Qed.

Lemma key_sort_lookup_elem {A} (k : A → Z) (l : list A) i a :
  key_sort k l !! i = Some a → a ∈ l.
Proof. intros Hi%list_elem_of_lookup_2. by rewrite key_sort_perm in Hi. Qed.

(** Part of ECMAScript's consistency requirement on comparators: the
    answers for [(a, b)] and [(b, a)] have opposite signs. *)
Definition antisymmetric_on {A} (cmp : A → A → num) (l : list A) : Prop :=
  ∀ a b, a ∈ l → b ∈ l → Z.sgn (sort_compare cmp a b) = - Z.sgn (sort_compare cmp b a).

(** ** The interface between [sortTodos] and the engine *)

Class ArraySort := array_sort : ∀ {A : Type}, (A → A → num) → list A → list A.

Class ArraySortSpec (S : ArraySort) := {
  array_sort_perm : ∀ {A} (cmp : A → A → num) (l : list A),
    Permutation (array_sort cmp l) l;
  array_sort_by_key : ∀ {A} (cmp : A → A → num) (k : A → Z) (l : list A),
    lt_by_key cmp k l → array_sort cmp l = key_sort k l
}.

(** ** The engine model: insertion sort driven by [SortCompare < 0] *)

Fixpoint cmp_insert {A} (cmp : A → A → num) (x : A) (l : list A) : list A :=
  match l with
  | [] => [x]
  | y :: l' => if sort_compare cmp x y <? 0 then x :: l else y :: cmp_insert cmp x l'
  end.

Definition insertion_sort {A} (cmp : A → A → num) (l : list A) : list A :=
  fold_left (λ acc x, cmp_insert cmp x acc) l [].

#[export] Instance insertion_sort_impl : ArraySort := @insertion_sort.

Section InsertionSort.
Context {A : Type} (cmp : A → A → num).

Lemma cmp_insert_perm x l : Permutation (cmp_insert cmp x l) (x :: l).
Proof.
  induction l as [|y l IH]; simpl; [done|].
  destruct (sort_compare cmp x y <? 0); [done|]. rewrite IH. constructor.
Qed.

Lemma insertion_sort_perm_acc l acc :
  Permutation (fold_left (λ acc x, cmp_insert cmp x acc) l acc) (acc ++ l).
Proof.
  revert acc. induction l as [|x l IH]; intros acc; simpl.
  - by rewrite app_nil_r.
  - rewrite IH, cmp_insert_perm. apply Permutation_middle.
Qed.

Context (k : A → Z) (L : list A) (Hkey : lt_by_key cmp k L).

Lemma cmp_insert_key x l :
  x ∈ L → (∀ y, y ∈ l → y ∈ L) → cmp_insert cmp x l = key_insert k x l.
Proof.
  intros Hx. induction l as [|y l IH]; intros Hl; simpl; [done|].
  assert (sort_compare cmp x y <? 0 = (k x <? k y)) as ->.
  { apply Bool.eq_iff_eq_true. rewrite !Z.ltb_lt. apply Hkey; [done|].
    apply Hl. left. }
  destruct (k x <? k y); [done|]. rewrite IH; [done|].
  intros w ?. apply Hl. by right.
Qed.

Lemma insertion_sort_key_acc rest acc :
  (∀ y, y ∈ acc → y ∈ L) → (∀ y, y ∈ rest → y ∈ L) →
  fold_left (λ acc x, cmp_insert cmp x acc) rest acc =
  fold_left (λ acc x, key_insert k x acc) rest acc.
Proof.
  revert acc. induction rest as [|x rest IH]; intros acc Hacc Hrest; simpl; [done|].
  rewrite cmp_insert_key by (done || (apply Hrest; left)).
  apply IH; [|intros; apply Hrest; by right].
  intros y. rewrite key_insert_perm. intros [->|?]%elem_of_cons; [|by apply Hacc].
  apply Hrest. left.
Qed.
End InsertionSort.

#[export] Instance insertion_sort_spec : ArraySortSpec insertion_sort_impl.
Proof.
  split.
  - intros A cmp l. apply insertion_sort_perm_acc.
  - intros A cmp k l Hkey. apply (insertion_sort_key_acc cmp k l Hkey); [set_solver|done].
Qed.

(** ** What the contract gives to a caller *)

Section Contract.
Context {S : ArraySort} {HS : ArraySortSpec S} {A : Type}.

Lemma array_sort_elem (cmp : A → A → num) (l : list A) x :
  x ∈ array_sort cmp l ↔ x ∈ l.
Proof. by rewrite array_sort_perm. Qed.

Lemma array_sort_Forall (cmp : A → A → num) (P : A → Prop) (l : list A) :
  Forall P l → Forall P (array_sort cmp l).
Proof. intros. by rewrite array_sort_perm. Qed.

Lemma array_sort_sorted (cmp : A → A → num) (k : A → Z) (l : list A) :
  lt_by_key cmp k l → Sorted (key_le k) (array_sort cmp l).
Proof. intros. rewrite (array_sort_by_key cmp k l) by done. apply key_sort_sorted. Qed.

Lemma array_sort_stable (cmp : A → A → num) (k : A → Z) (l : list A) :
  lt_by_key cmp k l → stable_wrt k (array_sort cmp l) l.
Proof. intros. rewrite (array_sort_by_key cmp k l) by done. apply key_sort_stable. Qed.
End Contract.

#[export] Hint Resolve array_sort_Forall array_sort_sorted array_sort_stable : todo.
