(* ===== verification/JsDate.v ===== *)
(** * [new Date(v)] and its time value

    [sortTodos] subtracts [new Date(a.dueDate)] from [new Date(b.dueDate)],
    which compares their time values (milliseconds since the epoch, or
    NaN for an invalid date).  The due dates come from an
    [<input type="date">], which produces the date-only form
    "YYYY-MM-DD" of the ECMAScript Date Time String Format.  The model
    parses the three date-only forms "YYYY", "YYYY-MM" and "YYYY-MM-DD"
    (UTC midnight, month 01-12, day 01-31 with MakeDay's arithmetic
    carrying a day past the end of its month into the next month, as V8
    does); every other string is an invalid date here, where an engine
    may still accept it through its implementation-specific fallback
    parser.  The constructor's result goes through TimeClip. *)

From S2P Require Import Prelude JsValue.

Definition ms_per_day : Z := 86400000.

(** Days from 1970-01-01 to the civil date [y-m-d] (proleptic Gregorian;
    [Z.div] is the floor division the algorithm needs). *)
Definition days_from_civil (y m d : Z) : Z :=
  let y' := if m <=? 2 then y - 1 else y in
  let era := y' / 400 in
  let yoe := y' - era * 400 in
  let mp := (m + 9) mod 12 in
  let doy := (153 * mp + 2) / 5 + d - 1 in
  let doe := yoe * 365 + yoe / 4 - yoe / 100 + doy in
  era * 146097 + doe - 719468.

(** MakeDate(MakeDay(y, m - 1, d), 0). *)
Definition make_date (y m d : Z) : Z := days_from_civil y m d * ms_per_day.

(** TimeClip. *)
Definition time_clip (n : num) : num :=
  match n with
  | Fin z => if Z.abs z <=? 8640000000000000 then Fin z else NaN
  | NaN => NaN
  end.

Definition digits2 (a b : ascii) : option Z :=
  match digit a, digit b with
  | Some x, Some y => Some (x * 10 + y)
  | _, _ => None
  end.

(** The date-only forms of the Date Time String Format. *)
Definition parse_iso_date (s : string) : num :=
  match s with
  | String a (String b (String c (String d rest))) =>
      match digits2 a b, digits2 c d with
      | Some hi, Some lo =>
          let y := hi * 100 + lo in
          match rest with
          | EmptyString => Fin (make_date y 1 1)
          | String "-" (String m1 (String m2 rest2)) =>
              match digits2 m1 m2 with
              | Some m =>
                  if (1 <=? m) && (m <=? 12) then
                    match rest2 with
                    | EmptyString => Fin (make_date y m 1)
                    | String "-" (String d1 (String d2 EmptyString)) =>
                        match digits2 d1 d2 with
                        | Some dd =>
                            if (1 <=? dd) && (dd <=? 31)
                            then Fin (make_date y m dd) else NaN
                        | None => NaN
                        end
                    | _ => NaN
                    end
                  else NaN
              | None => NaN
              end
          | _ => NaN
          end
      | _, _ => NaN
      end
  | _ => NaN
  end.

(** The time value of [new Date(v)] for a primitive [v]: a string is
    parsed, anything else goes through ToNumber. *)
Definition date_value (v : value) : num :=
  time_clip (match v with VStr s => parse_iso_date s | _ => to_number v end).

Lemma time_clip_bound n z : time_clip n = Fin z → Z.abs z ≤ 8640000000000000.
Proof.
  destruct n as [x|]; simpl; [|done].
  destruct (Z.abs x <=? _) eqn:E; [|done]. intros [= <-]. by apply Z.leb_le.
Qed.

Lemma date_value_bound v z : date_value v = Fin z → Z.abs z ≤ 8640000000000000.
Proof. apply time_clip_bound. Qed.
