(* ===== verification/Json.v ===== *)
(** * JSON.stringify and JSON.parse of the stored task list

    App.js writes [JSON.stringify(todos)] to [localStorage] (lines 31 and
    43) and reads it back with [JSON.parse] (line 19); the seed response
    is read with [response.json()] (line 27), the same parser.  The model
    covers what these calls meet: an array of flat objects whose values
    are primitives.

    [stringify] follows SerializeJSONObject: a property whose value is
    [undefined] is left out, NaN is written [null], strings are quoted
    by QuoteJSONString (double quote and backslash escaped, the short escapes for
    backspace, form feed, newline, carriage return and tab, [\u00XX] for
    the other control characters).

    [json_parse] reads JSON text whose top value is an array of
    objects with primitive members, with JSON white space between
    tokens; a repeated key keeps its first position and takes the last
    value, as CreateDataProperty does.  It is not the whole of
    [JSON.parse]: a fraction or an exponent, a [\u] escape above 00FF
    (strings are 8-bit) and nested arrays or objects as member values
    are outside what it reads, and it does not refuse a number with
    leading zeros.  [JSON_parse] (file JsonText) checks the JSON grammar
    first and uses [json_parse] only on JSON text, so a text with a
    leading zero throws there, and a JSON text outside what
    [json_parse] reads is reported as a value the model does not
    represent, never as an error. *)

From Stdlib Require Import DecimalZ.
From S2P Require Import Prelude JsValue.

Infix "+++" := String.append (at level 60, right associativity) : todo_scope.

Definition dq : ascii := Ascii.ascii_of_nat 34.
Definition bsl : ascii := Ascii.ascii_of_nat 92.

Definition hex_char (n : nat) : ascii :=
  Ascii.ascii_of_nat (if (n <? 10)%nat then 48 + n else 87 + n)%nat.

Definition hex_val (c : ascii) : option nat :=
  let n := Ascii.nat_of_ascii c in
  if (48 <=? n)%nat && (n <=? 57)%nat then Some (n - 48)%nat
  else if (97 <=? n)%nat && (n <=? 102)%nat then Some (n - 87)%nat
  else if (65 <=? n)%nat && (n <=? 70)%nat then Some (n - 55)%nat
  else None.

(** ** Printing *)

(** QuoteJSONString on one character. *)
Definition escape (c : ascii) : string :=
  let n := Ascii.nat_of_ascii c in
  if (n =? 34)%nat then String bsl (String dq EmptyString)
  else if (n =? 92)%nat then String bsl (String bsl EmptyString)
  else if (n =? 8)%nat then String bsl (String "b" EmptyString)
  else if (n =? 12)%nat then String bsl (String "f" EmptyString)
  else if (n =? 10)%nat then String bsl (String "n" EmptyString)
  else if (n =? 13)%nat then String bsl (String "r" EmptyString)
  else if (n =? 9)%nat then String bsl (String "t" EmptyString)
  else if (n <? 32)%nat then
    String bsl (String "u" (String "0" (String "0"
      (String (hex_char (n / 16)) (String (hex_char (n mod 16)) EmptyString)))))
  else String c EmptyString.

Fixpoint esc (s : string) : string :=
  match s with
  | EmptyString => EmptyString
  | String c s' => escape c +++ esc s'
  end.

Definition quote (s : string) : string := String dq (esc s +++ String dq EmptyString).

(** SerializeJSONProperty on a value that is not [undefined]. *)
Definition value_json (v : value) : string :=
  match v with
  | VUndefined => EmptyString
  | VNull | VNum NaN => "null"
  | VBool true => "true"
  | VBool false => "false"
  | VNum (Fin z) => Z_to_string z
  | VStr s => quote s
  end.

Fixpoint join (sep : string) (l : list string) : string :=
  match l with
  | [] => EmptyString
  | [x] => x
  | x :: l' => x +++ sep +++ join sep l'
  end.

Definition defined (kv : string * value) : bool :=
  match kv.2 with VUndefined => false | _ => true end.

Definition member_json (kv : string * value) : string :=
  quote kv.1 +++ String ":" (value_json kv.2).

(** SerializeJSONObject. *)
Definition obj_json (o : obj) : string :=
  String "{" (join "," (map member_json (List.filter defined o)) +++ "}").

(** SerializeJSONArray of objects. *)
Definition stringify (l : list obj) : string :=
  String "[" (join "," (map obj_json l) +++ "]").

(** ** Parsing *)

Definition cons_char (c : ascii) (r : option (string * string)) : option (string * string) :=
  match r with Some (t, rest) => Some (String c t, rest) | None => None end.

Definition short_unescape (e : ascii) : option ascii :=
  let n := Ascii.nat_of_ascii e in
  if (n =? 34)%nat then Some dq
  else if (n =? 92)%nat then Some bsl
  else if (n =? 47)%nat then Some "/"%char
  else if (n =? 98)%nat then Some (Ascii.ascii_of_nat 8)
  else if (n =? 102)%nat then Some (Ascii.ascii_of_nat 12)
  else if (n =? 110)%nat then Some (Ascii.ascii_of_nat 10)
  else if (n =? 114)%nat then Some (Ascii.ascii_of_nat 13)
  else if (n =? 116)%nat then Some (Ascii.ascii_of_nat 9)
  else None.

Definition hex4 (a b c d : ascii) : option nat :=
  match hex_val a, hex_val b, hex_val c, hex_val d with
  | Some w, Some x, Some y, Some z => Some (((w * 16 + x) * 16 + y) * 16 + z)%nat
  | _, _, _, _ => None
  end.

(** The body of a string literal, after its opening quote: the string
    and what follows the closing quote. *)
Fixpoint parse_str (s : string) : option (string * string) :=
  match s with
  | EmptyString => None
  | String c r =>
      if (Ascii.nat_of_ascii c =? 34)%nat then Some (EmptyString, r)
      else if (Ascii.nat_of_ascii c =? 92)%nat then
        match r with
        | String e r' =>
            if (Ascii.nat_of_ascii e =? 117)%nat then
              match r' with
              | String h1 (String h2 (String h3 (String h4 r''))) =>
                  match hex4 h1 h2 h3 h4 with
                  | Some n => if (n <? 256)%nat
                              then cons_char (Ascii.ascii_of_nat n) (parse_str r'')
                              else None
                  | None => None
                  end
              | _ => None
              end
            else match short_unescape e with
                 | Some c' => cons_char c' (parse_str r')
                 | None => None
                 end
        | EmptyString => None
        end
      else if (Ascii.nat_of_ascii c <? 32)%nat then None
      else cons_char c (parse_str r)
  end.

(** JSON white space: space, tab, line feed, carriage return. *)
Definition is_jws (c : ascii) : bool :=
  let n := Ascii.nat_of_ascii c in
  (n =? 32)%nat || (n =? 9)%nat || (n =? 10)%nat || (n =? 13)%nat.

Fixpoint skip_jws (s : string) : string :=
  match s with
  | String c r => if is_jws c then skip_jws r else s
  | EmptyString => EmptyString
  end.

Definition is_num_char (c : ascii) : bool :=
  let n := Ascii.nat_of_ascii c in
  (n =? 45)%nat || ((48 <=? n)%nat && (n <=? 57)%nat).

(** The longest prefix of minus signs and digits. *)
Fixpoint num_token (s : string) : string * string :=
  match s with
  | String c r =>
      if is_num_char c then let '(t, rest) := num_token r in (String c t, rest)
      else (EmptyString, s)
  | EmptyString => (EmptyString, EmptyString)
  end.

Definition is_frac_or_exp (c : ascii) : bool :=
  let n := Ascii.nat_of_ascii c in (n =? 46)%nat || (n =? 101)%nat || (n =? 69)%nat.

(** A JSON number: an optional minus sign and decimal digits. *)
Definition parse_number (s : string) : option (Z * string) :=
  let '(t, rest) := num_token s in
  match rest with
  | String c _ => if is_frac_or_exp c then None else
      option_map (λ d, (Z.of_int d, rest)) (NilZero.int_of_string t)
  | EmptyString => option_map (λ d, (Z.of_int d, rest)) (NilZero.int_of_string t)
  end.

(** A primitive JSON value. *)
Definition parse_value (s : string) : option (value * string) :=
  match s with
  | String c r =>
      if (Ascii.nat_of_ascii c =? 34)%nat then
        match parse_str r with Some (t, r') => Some (VStr t, r') | None => None end
      else match s with
        | String "t" (String "r" (String "u" (String "e" r'))) => Some (VBool true, r')
        | String "f" (String "a" (String "l" (String "s" (String "e" r')))) =>
            Some (VBool false, r')
        | String "n" (String "u" (String "l" (String "l" r'))) => Some (VNull, r')
        | _ => match parse_number s with
               | Some (z, r') => Some (VNum (Fin z), r')
               | None => None
               end
        end
  | EmptyString => None
  end.

(** The members of an object after its opening brace, added to [acc] by
    CreateDataProperty. *)
Fixpoint parse_members (fuel : nat) (acc : obj) (s : string) : option (obj * string) :=
  match fuel with
  | O => None
  | S f =>
      match skip_jws s with
      | String c r =>
          if (Ascii.nat_of_ascii c =? 34)%nat then
            match parse_str r with
            | Some (k, r1) =>
                match skip_jws r1 with
                | String ":" r2 =>
                    match parse_value (skip_jws r2) with
                    | Some (v, r3) =>
                        match skip_jws r3 with
                        | String "," r4 => parse_members f (aset k v acc) r4
                        | String "}" r4 => Some (aset k v acc, r4)
                        | _ => None
                        end
                    | None => None
                    end
                | _ => None
                end
            | None => None
            end
          else None
      | EmptyString => None
      end
  end.

Definition parse_object (fuel : nat) (s : string) : option (obj * string) :=
  match skip_jws s with
  | String "{" r =>
      match skip_jws r with
      | String "}" r' => Some ([], r')
      | _ => parse_members fuel [] r
      end
  | _ => None
  end.

(** The elements of an array after its opening bracket. *)
Fixpoint parse_elements (ofuel fuel : nat) (acc : list obj) (s : string)
  : option (list obj * string) :=
  match fuel with
  | O => None
  | S f =>
      match parse_object ofuel s with
      | Some (o, r) =>
          match skip_jws r with
          | String "," r' => parse_elements ofuel f (acc ++ [o]) r'
          | String "]" r' => Some (acc ++ [o], r')
          | _ => None
          end
      | None => None
      end
  end.

(** [JSON.parse(s)] for an array of flat objects; the fuel is the length
    of the text, which bounds the number of elements and of members. *)
Definition json_parse (s : string) : option (list obj) :=
  let fuel := String.length s in
  match skip_jws s with
  | String "[" r =>
      match (match skip_jws r with
             | String "]" r' => Some ([], r')
             | _ => parse_elements fuel fuel [] r
             end) with
      | Some (l, rest) => match skip_jws rest with EmptyString => Some l | _ => None end
      | None => None
      end
  | _ => None
  end.

(** What a value becomes after a round trip through JSON. *)
Definition json_value (v : value) : value :=
  match v with VNum NaN => VNull | _ => v end.

Definition json_member (kv : string * value) : string * value := (kv.1, json_value kv.2).

Definition normalize (o : obj) : obj := map json_member (List.filter defined o).

(** ** Round trip *)

(** What may follow a number: not a digit, sign, point or exponent. *)
Definition num_stop (rest : string) : Prop :=
  ∀ c r, rest = String c r → is_num_char c = false ∧ is_frac_or_exp c = false.


(** [String.append] never unfolds under [simpl]; these are its equations. *)
Lemma str_app_nil (b : string) : EmptyString +++ b = b.
Proof. reflexivity. Qed.

Lemma str_app_cons (c : ascii) (a b : string) : String c a +++ b = String c (a +++ b).
Proof. reflexivity. Qed.

Lemma str_app_assoc (a b c : string) : (a +++ b) +++ c = a +++ (b +++ c).
Proof. induction a as [|x a IH]; [done|]. by rewrite !str_app_cons, IH. Qed.

Lemma str_app_length (a b : string) :
  String.length (a +++ b) = (String.length a + String.length b)%nat.
Proof. induction a as [|x a IH]; [done|]. rewrite str_app_cons. simpl. by rewrite IH. Qed.

#[export] Hint Rewrite str_app_nil str_app_cons str_app_assoc : todo_rw.

(** QuoteJSONString and the string-literal scanner agree on each of
    the 256 characters. *)
Lemma parse_str_escape (c : ascii) (x : string) :
  parse_str (escape c +++ x) = cons_char c (parse_str x).
Proof. destruct c as [[] [] [] [] [] [] [] []]; reflexivity. Qed.

Lemma parse_str_esc (s rest : string) :
  parse_str (esc s +++ String dq rest) = Some (s, rest).
Proof.
  induction s as [|c s IH]; [done|]. cbn [esc].
  by rewrite str_app_assoc, parse_str_escape, IH.
Qed.

Lemma num_chars_uint (d : Decimal.uint) :
  Forall (λ c, is_num_char c = true) (list_ascii_of_string (NilEmpty.string_of_uint d)).
Proof. induction d; simpl; by constructor. Qed.

Lemma num_chars_Z (z : Z) :
  Forall (λ c, is_num_char c = true) (list_ascii_of_string (Z_to_string z)).
Proof.
  unfold Z_to_string, NilZero.string_of_int, NilZero.string_of_uint.
  destruct (Z.to_int z) as [[]|[]]; simpl; repeat constructor; apply num_chars_uint.
Qed.

Lemma num_token_app (t rest : string) :
  Forall (λ c, is_num_char c = true) (list_ascii_of_string t) →
  (∀ c r, rest = String c r → is_num_char c = false) →
  num_token (t +++ rest) = (t, rest).
Proof.
  intros Ht Hr. induction t as [|c t IH]; rewrite ?str_app_cons; simpl in *.
  - destruct rest as [|c r]; [done|]. simpl. by rewrite (Hr c r).
  - inversion_clear Ht. by rewrite H, IH.
Qed.

(** The decimal form of an integer reads back as that integer
    ([NilZero] parses the empty digit string of [-0] as 0). *)
Lemma int_of_Z_to_string (z : Z) :
  option_map Z.of_int (NilZero.int_of_string (Z_to_string z)) = Some z.
Proof.
  unfold Z_to_string. rewrite <- (DecimalZ.of_to z) at 2.
  destruct (Z.to_int z) as [[]|[]]; try reflexivity;
    by rewrite NilZero.isi by discriminate.
Qed.

Lemma parse_number_Z (z : Z) (rest : string) :
  num_stop rest → parse_number (Z_to_string z +++ rest) = Some (z, rest).
Proof.
  intros Hr. unfold parse_number.
  rewrite num_token_app by (apply num_chars_Z || (intros c r ->; by apply (Hr c r))).
  pose proof (int_of_Z_to_string z) as Hz.
  destruct rest as [|c r].
  - destruct (NilZero.int_of_string _); simpl in *; congruence.
  - rewrite (proj2 (Hr c r eq_refl)).
    destruct (NilZero.int_of_string _); simpl in *; congruence.
Qed.

Lemma Z_to_string_cons (z : Z) : ∃ c t, Z_to_string z = String c t.
Proof.
  unfold Z_to_string, NilZero.string_of_int, NilZero.string_of_uint.
  destruct (Z.to_int z) as [[]|[]]; eexists _, _; reflexivity.
Qed.

(** A text that starts like a number is read by [parse_number]. *)
Lemma parse_value_numeric (c : ascii) (r : string) :
  is_num_char c = true →
  parse_value (String c r) =
  match parse_number (String c r) with
  | Some (z, r') => Some (VNum (Fin z), r')
  | None => None
  end.
Proof. destruct c as [[] [] [] [] [] [] [] []]; first [discriminate | reflexivity]. Qed.

Lemma num_char_not_jws (c : ascii) : is_num_char c = true → is_jws c = false.
Proof. destruct c as [[] [] [] [] [] [] [] []]; first [discriminate | reflexivity]. Qed.

Lemma skip_jws_cons (c : ascii) (r : string) : is_jws c = false → skip_jws (String c r) = String c r.
Proof. simpl. by intros ->. Qed.

Lemma parse_value_json (v : value) (rest : string) :
  v ≠ VUndefined → num_stop rest →
  parse_value (value_json v +++ rest) = Some (json_value v, rest).
Proof.
  intros Hv Hr. destruct v as [| |[]|[z|]|s]; try done.
  - destruct (Z_to_string_cons z) as (c & t & Hct). simpl. pose proof (num_chars_Z z) as Hn.
    rewrite Hct in Hn |- *. inversion Hn as [|? ? Hc]; subst.
    rewrite str_app_cons, parse_value_numeric, <- str_app_cons, <- Hct, parse_number_Z; done.
  - simpl. by rewrite str_app_assoc, str_app_cons, str_app_nil, parse_str_esc.
Qed.

Lemma value_json_head (v : value) :
  v ≠ VUndefined → ∃ c t, value_json v = String c t ∧ is_jws c = false.
Proof.
  intros Hv. destruct v as [| |[]|[z|]|s]; try done; try by eexists _, _.
  destruct (Z_to_string_cons z) as (c & t & Hct). pose proof (num_chars_Z z) as Hn.
  rewrite Hct in Hn. inversion Hn; subst. exists c, t. split; [done|].
  by apply num_char_not_jws.
Qed.

Lemma skip_jws_value (v : value) (rest : string) :
  v ≠ VUndefined → skip_jws (value_json v +++ rest) = value_json v +++ rest.
Proof.
  intros (c & t & -> & Hc)%value_json_head. rewrite str_app_cons. by apply skip_jws_cons.
Qed.

Lemma parse_members_step fuel acc k v rest :
  v ≠ VUndefined → num_stop rest →
  parse_members (S fuel) acc (member_json (k, v) +++ rest) =
  match skip_jws rest with
  | String "," r => parse_members fuel (aset k (json_value v) acc) r
  | String "}" r => Some (aset k (json_value v) acc, r)
  | _ => None
  end.
Proof.
  intros Hv Hr. unfold member_json, quote. simpl.
  rewrite !str_app_assoc, str_app_cons, parse_str_esc, str_app_nil, str_app_cons.
  simpl. by rewrite skip_jws_value, parse_value_json.
Qed.

Lemma num_stop_comma r : num_stop (String "," r).
Proof. by intros ? ? [= <- <-]. Qed.

Lemma num_stop_brace r : num_stop (String "}" r).
Proof. by intros ? ? [= <- <-]. Qed.

Lemma num_stop_bracket r : num_stop (String "]" r).
Proof. by intros ? ? [= <- <-]. Qed.

#[export] Hint Resolve num_stop_comma num_stop_brace num_stop_bracket : todo.

(** The members of a serialised object, read with enough fuel, are
    defined on the accumulator in order. *)
Lemma parse_members_join fuel acc ms rest :
  ms ≠ [] → (List.length ms ≤ fuel)%nat → Forall (λ kv, kv.2 ≠ VUndefined) ms →
  parse_members fuel acc (join "," (map member_json ms) +++ String "}" rest) =
  Some (amerge acc (map json_member ms), rest).
Proof.
  revert fuel acc. induction ms as [|[k v] ms IH]; intros fuel acc Hne Hf Hd; [done|].
  destruct fuel as [|fuel]; [simpl in Hf; lia|]. inversion_clear Hd as [|? ? Hv Hd'].
  destruct ms as [|m ms].
  - change (join "," (map member_json [(k, v)])) with (member_json (k, v)).
    rewrite parse_members_step by auto with todo. done.
  - change (join "," (map member_json ((k, v) :: m :: ms)))
      with (member_json (k, v) +++ String "," (join "," (map member_json (m :: ms)))).
    rewrite str_app_assoc, str_app_cons, parse_members_step by auto with todo.
    rewrite skip_jws_cons by reflexivity. cbv iota beta.
    rewrite IH by (done || simpl in *; lia). done.
Qed.

Lemma filter_defined_Forall (o : obj) :
  Forall (λ kv, kv.2 ≠ VUndefined) (List.filter defined o).
Proof.
  induction o as [|[k v] o IH]; simpl; [done|].
  destruct v; simpl; try constructor; done.
Qed.

(** On an object with distinct keys, redefining the members in order
    rebuilds the normalised object. *)
Lemma amerge_normalize (o : obj) :
  wf_obj o → amerge [] (map json_member (List.filter defined o)) = normalize o.
Proof.
  intros Hwf. apply amerge_app. simpl. rewrite map_map. by apply NoDup_map_filter.
Qed.

Lemma join_member_head m ms X : ∃ Z, join "," (map member_json (m :: ms)) +++ X = String dq Z.
Proof. destruct ms; eexists; reflexivity. Qed.

Lemma join_obj_head o l X : ∃ Z, join "," (map obj_json (o :: l)) +++ X = String "{" Z.
Proof. destruct l; eexists; reflexivity. Qed.

Lemma parse_object_json fuel o rest :
  wf_obj o → (List.length (List.filter defined o) ≤ fuel)%nat →
  parse_object fuel (obj_json o +++ rest) = Some (normalize o, rest).
Proof.
  intros Hwf Hf. unfold obj_json. rewrite <- amerge_normalize by done.
  pose proof (filter_defined_Forall o) as Hd.
  destruct (List.filter defined o) as [|m ms] eqn:E; [reflexivity|].
  destruct (join_member_head m ms (String "}" rest)) as [Z HZ].
  rewrite str_app_cons, str_app_assoc, str_app_cons, str_app_nil, HZ.
  change (parse_object fuel (String "{" (String dq Z)))
    with (parse_members fuel [] (String dq Z)).
  rewrite <- HZ. by apply parse_members_join.
Qed.

Lemma parse_elements_join ofuel fuel acc l rest :
  l ≠ [] → (List.length l ≤ fuel)%nat →
  Forall (λ o, wf_obj o ∧ (List.length (List.filter defined o) ≤ ofuel)%nat) l →
  parse_elements ofuel fuel acc (join "," (map obj_json l) +++ String "]" rest) =
  Some (acc ++ map normalize l, rest).
Proof.
  revert fuel acc. induction l as [|o l IH]; intros fuel acc Hne Hf Hl; [done|].
  destruct fuel as [|fuel]; [simpl in Hf; lia|]. inversion_clear Hl as [|? ? [Hwf Ho] Hl'].
  destruct l as [|o' l].
  - change (join "," (map obj_json [o])) with (obj_json o). cbn [parse_elements].
    rewrite parse_object_json by done. rewrite skip_jws_cons by reflexivity. done.
  - change (join "," (map obj_json (o :: o' :: l)))
      with (obj_json o +++ String "," (join "," (map obj_json (o' :: l)))).
    rewrite str_app_assoc, str_app_cons. cbn [parse_elements].
    rewrite parse_object_json by done. rewrite skip_jws_cons by reflexivity. cbv iota beta.
    rewrite IH by (done || simpl in *; lia). by rewrite <- app_assoc.
Qed.

Lemma join_length_elem sep (l : list string) x :
  x ∈ l → (String.length x ≤ String.length (join sep l))%nat.
Proof.
  induction l as [|y l IH]; [by intros ?%elem_of_nil|].
  intros Hx. destruct l as [|z l].
  - apply list_elem_of_singleton in Hx as ->. done.
  - change (join sep (y :: z :: l)) with (y +++ sep +++ join sep (z :: l)).
    rewrite !str_app_length. apply elem_of_cons in Hx as [->|Hx]; [lia|].
    specialize (IH Hx). lia.
Qed.

Lemma join_length_count sep (l : list string) :
  Forall (λ x, x ≠ EmptyString) l → (List.length l ≤ String.length (join sep l))%nat.
Proof.
  induction 1 as [|x l Hx Hl IH]; [simpl; lia|].
  destruct x as [|c x]; [done|]. destruct l as [|y l]; cbn [join]; simpl; [lia|].
  rewrite !str_app_length. simpl in IH. lia.
Qed.

Lemma Forall_nonempty_map {A} (f : A → string) (l : list A) :
  (∀ x, f x ≠ EmptyString) → Forall (λ s, s ≠ EmptyString) (map f l).
Proof. intros Hf. apply Forall_forall. intros s Hs. apply list_elem_of_In, in_map_iff in Hs as (x & <- & _). apply Hf. Qed.

Lemma member_json_nonempty kv : member_json kv ≠ EmptyString.
Proof. unfold member_json, quote. by rewrite str_app_cons. Qed.

Lemma obj_json_nonempty o : obj_json o ≠ EmptyString.
Proof. done. Qed.

Lemma obj_json_length (o : obj) :
  (List.length (List.filter defined o) < String.length (obj_json o))%nat.
Proof.
  unfold obj_json. simpl. rewrite str_app_length.
  pose proof (join_length_count "," (map member_json (List.filter defined o))
    (Forall_nonempty_map _ _ member_json_nonempty)) as H.
  rewrite length_map in H. lia.
Qed.

(** [JSON.stringify] already drops [undefined] and writes NaN as
    [null]: normalising first changes nothing. *)
Lemma value_json_json_value v : value_json (json_value v) = value_json v.
Proof. by destruct v as [| | |[]|]. Qed.

Lemma member_json_json_member kv : member_json (json_member kv) = member_json kv.
Proof. unfold member_json, json_member. simpl. by rewrite value_json_json_value. Qed.

Lemma obj_json_normalize o : obj_json (normalize o) = obj_json o.
Proof.
  unfold obj_json. do 3 f_equal. unfold normalize.
  induction o as [|[k v] o IH]; [done|].
  destruct v as [| | |[]|]; cbn -[member_json]; rewrite IH; [done|..];
    f_equal; apply (member_json_json_member (_, _)).
Qed.

Lemma stringify_normalize l : stringify (map normalize l) = stringify l.
Proof. unfold stringify. rewrite map_map. by rewrite (map_ext _ _ obj_json_normalize). Qed.

Lemma truthy_stringify l : truthy (VStr (stringify l)) = true.
Proof. done. Qed.

(** The round trip: writing a list of objects with [JSON.stringify] and
    reading it back with [JSON.parse] gives the list with every
    [undefined] property dropped and NaN read as [null]. *)
Lemma json_parse_stringify (l : list obj) :
  Forall wf_obj l → json_parse (stringify l) = Some (map normalize l).
Proof.
  intros Hwf. destruct l as [|o l']; [reflexivity|].
  destruct (join_obj_head o l' (String "]" EmptyString)) as [t Ht].
  unfold stringify. rewrite Ht. change (json_parse (String "[" (String "{" t))) with
    (let n := String.length (String "[" (String "{" t)) in
     match parse_elements n n [] (String "{" t) with
     | Some (l, rest) => match skip_jws rest with EmptyString => Some l | _ => None end
     | None => None end).
  cbv zeta. rewrite <- Ht. rewrite parse_elements_join; [done|done| |].
  - cbn [String.length]. rewrite str_app_length.
    pose proof (join_length_count "," (map obj_json (o :: l'))
      (Forall_nonempty_map _ _ obj_json_nonempty)) as H.
    rewrite length_map in H. lia.
  - apply Forall_forall. intros o' Ho'. split; [by eapply Forall_forall|].
    pose proof (obj_json_length o') as Hlen.
    pose proof (join_length_elem "," (map obj_json (o :: l')) (obj_json o')
      (proj2 (list_elem_of_In _ _) (in_map _ _ _ (proj1 (list_elem_of_In _ _) Ho')))) as Hel.
    cbn [String.length]. rewrite str_app_length. lia.
Qed.


(** Every object [json_parse] builds has distinct keys. *)
Lemma wf_obj_nil : wf_obj [].
Proof. constructor. Qed.

Lemma parse_members_wf fuel acc s o r :
  wf_obj acc → parse_members fuel acc s = Some (o, r) → wf_obj o.
Proof.
  revert acc s. induction fuel as [|f IH]; intros acc s Hacc H; [done|]. simpl in H.
  repeat case_match; simplify_eq;
    first [eapply IH; [|eassumption] | idtac]; apply (wf_with_prop acc); done.
Qed.

Lemma parse_object_wf fuel s o r : parse_object fuel s = Some (o, r) → wf_obj o.
Proof.
  unfold parse_object. intros H. repeat case_match; simplify_eq;
    first [apply wf_obj_nil | eapply parse_members_wf; [apply wf_obj_nil|eassumption]].
Qed.

Lemma parse_elements_wf ofuel fuel acc s l r :
  Forall wf_obj acc → parse_elements ofuel fuel acc s = Some (l, r) → Forall wf_obj l.
Proof.
  revert acc s. induction fuel as [|f IH]; intros acc s Hacc H; [done|]. simpl in H.
  destruct (parse_object ofuel s) as [[o r0]|] eqn:Ho; [|done].
  apply parse_object_wf in Ho.
  repeat case_match; simplify_eq;
    first [eapply IH; [|eassumption] | idtac]; apply Forall_app; auto.
Qed.

Lemma json_parse_wf s l : json_parse s = Some l → Forall wf_obj l.
Proof.
  unfold json_parse. intros H. repeat case_match; simplify_eq;
    first [constructor | eapply parse_elements_wf; [constructor|eassumption]].
Qed.
