(* ===== verification/JsonText.v ===== *)
(** * The JSON grammar: what [JSON.parse] accepts, and what it returns

    [JSON.parse(text)] (ECMA-262, JSON.parse step 2) throws a SyntaxError
    exactly when [text] is not a JSON text of ECMA-404; otherwise it
    returns the value, whatever its kind.  App.js relies on both: line 19
    adopts the value of the stored text, lines 27-28 call [.slice] on the
    value of the seed response, and the [catch] of line 32 records the
    error when either throws.

    [json_scan] is the grammar as a recogniser: a pushdown automaton
    that reads the text one character at a time, its stack the arrays
    and objects still open, its mode what the grammar expects next
    (a value, a member name, the colon, the rest of a string literal, of
    a number or of [true], [false], [null], or what may follow a value).
    It is structurally recursive on the text, so it needs no fuel and
    decides every text.  Numbers follow the grammar
    [-? (0 | [1-9][0-9]* ) (. [0-9]+)? ([eE] [+-]? [0-9]+)?] (a leading
    zero followed by a digit is refused), strings refuse the control
    characters below 0x20 and accept the escapes of ECMA-404, white
    space is space, tab, line feed and carriage return.

    [JSON_parse] combines it with [json_parse] (file Json), the reader of
    the texts whose value the model represents (an array of flat
    objects): [Parsed l] for those, [ParsedOther k] for a JSON text of
    any other value, of top-level kind [k], and [Throws] for a text that
    is not JSON.  The theorem of this file is that every text
    [JSON.stringify] writes from a list of records is read back as
    [Parsed]. *)

From S2P Require Import Prelude JsValue Json.

(** The kinds of JSON value. *)
Inductive json_kind := KNull | KBool | KNumber | KString | KArray | KObject.

(** An open array or object. *)
Inductive frame := FArray | FObject.

(** Where a number is: after the minus sign, after a leading zero, in
    the integer digits, after the point, in the fraction, after the
    exponent mark, after its sign, in the exponent digits. *)
Inductive num_state := NMinus | NZero | NInt | NPoint | NFrac | NExp | NExpSign | NExpDigit.

(** Where a string literal is: a plain character, after a backslash,
    in a [\u] escape with [n] + 1 hex digits still to come. *)
Inductive str_state := SPlain | SEscape | SHex (n : nat).

Inductive mode :=
| MValue (close : bool)          (* a value; [close]: or the ']' of an empty array *)
| MKey (close : bool)            (* a member name; [close]: or the '}' of an empty object *)
| MStr (key : bool) (st : str_state)
| MColon
| MNum (st : num_state)
| MWord (letters : list ascii)   (* the letters left of true, false or null *)
| MAfter.                        (* a value has ended *)

Definition scanner : Type := mode * list frame.

Definition code (c : ascii) : nat := Ascii.nat_of_ascii c.

Definition is_dec_digit (c : ascii) : bool := (48 <=? code c)%nat && (code c <=? 57)%nat.

Definition is_exp_mark (c : ascii) : bool := (code c =? 101)%nat || (code c =? 69)%nat.

(** After a value: white space, the comma of the open array or object,
    or the bracket or brace that closes it. *)
Definition feed_after (k : list frame) (c : ascii) : option scanner :=
  if is_jws c then Some (MAfter, k)
  else match c, k with
  | ","%char, FArray :: _ => Some (MValue false, k)
  | ","%char, FObject :: _ => Some (MKey false, k)
  | "]"%char, FArray :: k' => Some (MAfter, k')
  | "}"%char, FObject :: k' => Some (MAfter, k')
  | _, _ => None
  end.

(** The first character of a value. *)
Definition feed_value (close : bool) (k : list frame) (c : ascii) : option scanner :=
  if is_jws c then Some (MValue close, k)
  else if (code c =? 34)%nat then Some (MStr false SPlain, k)
  else match c with
  | "["%char => Some (MValue true, FArray :: k)
  | "{"%char => Some (MKey true, FObject :: k)
  | "-"%char => Some (MNum NMinus, k)
  | "0"%char => Some (MNum NZero, k)
  | "t"%char => Some (MWord ["r"; "u"; "e"]%char, k)
  | "f"%char => Some (MWord ["a"; "l"; "s"; "e"]%char, k)
  | "n"%char => Some (MWord ["u"; "l"; "l"]%char, k)
  | "]"%char => if close then feed_after k c else None
  | _ => if is_dec_digit c then Some (MNum NInt, k) else None
  end.

Definition feed_key (close : bool) (k : list frame) (c : ascii) : option scanner :=
  if is_jws c then Some (MKey close, k)
  else if (code c =? 34)%nat then Some (MStr true SPlain, k)
  else if close && (code c =? 125)%nat then feed_after k c
  else None.

Definition feed_str (key : bool) (st : str_state) (k : list frame) (c : ascii)
  : option scanner :=
  match st with
  | SPlain =>
      if (code c =? 34)%nat then Some (if key then MColon else MAfter, k)
      else if (code c =? 92)%nat then Some (MStr key SEscape, k)
      else if (code c <? 32)%nat then None
      else Some (MStr key SPlain, k)
  | SEscape =>
      if (code c =? 117)%nat then Some (MStr key (SHex 3), k)
      else match short_unescape c with
           | Some _ => Some (MStr key SPlain, k)
           | None => None
           end
  | SHex n =>
      match hex_val c with
      | Some _ => Some (MStr key (match n with O => SPlain | S m => SHex m end), k)
      | None => None
      end
  end.

Definition num_accepting (st : num_state) : bool :=
  match st with NZero | NInt | NFrac | NExpDigit => true | _ => false end.

Definition num_next (st : num_state) (c : ascii) : option num_state :=
  let d := is_dec_digit c in
  match st with
  | NMinus => if (code c =? 48)%nat then Some NZero else if d then Some NInt else None
  | NZero => if (code c =? 46)%nat then Some NPoint
             else if is_exp_mark c then Some NExp else None
  | NInt => if d then Some NInt else if (code c =? 46)%nat then Some NPoint
            else if is_exp_mark c then Some NExp else None
  | NPoint => if d then Some NFrac else None
  | NFrac => if d then Some NFrac else if is_exp_mark c then Some NExp else None
  | NExp => if d then Some NExpDigit
            else if (code c =? 43)%nat || (code c =? 45)%nat then Some NExpSign else None
  | NExpSign | NExpDigit => if d then Some NExpDigit else None
  end.

(** One character.  A number ends at the first character that cannot
    continue it, which is then read as what follows a value. *)
Definition feed (s : scanner) (c : ascii) : option scanner :=
  let '(m, k) := s in
  match m with
  | MValue close => feed_value close k c
  | MKey close => feed_key close k c
  | MStr key st => feed_str key st k c
  | MColon =>
      if is_jws c then Some (MColon, k)
      else if (code c =? 58)%nat then Some (MValue false, k) else None
  | MNum st =>
      match num_next st c with
      | Some st' => Some (MNum st', k)
      | None => if num_accepting st then feed_after k c else None
      end
  | MWord [] => None
  | MWord (x :: r) =>
      if Ascii.eqb c x then Some (match r with [] => MAfter | _ => MWord r end, k) else None
  | MAfter => feed_after k c
  end.

Fixpoint json_scan (s : scanner) (t : string) : option scanner :=
  match t with
  | EmptyString => Some s
  | String c r => match feed s c with Some s' => json_scan s' r | None => None end
  end.

(** The end of the text: one value read, and nothing left open. *)
Definition scan_final (s : scanner) : bool :=
  match s with
  | (MAfter, []) => true
  | (MNum st, []) => num_accepting st
  | _ => false
  end.

(** [text] is a JSON text: [JSON.parse(text)] does not throw. *)
Definition json_valid (t : string) : bool :=
  match json_scan (MValue false, []) t with Some s => scan_final s | None => false end.

(** The kind of the value a JSON text holds, read from its first
    character after white space. *)
Definition kind_of (c : ascii) : json_kind :=
  if (code c =? 34)%nat then KString
  else match c with
  | "["%char => KArray
  | "{"%char => KObject
  | "t"%char | "f"%char => KBool
  | "n"%char => KNull
  | _ => KNumber
  end.

Definition json_top_kind (t : string) : json_kind :=
  match skip_jws t with String c _ => kind_of c | EmptyString => KNull end.

(** What [JSON.parse(text)] gives. *)
Inductive parse_result :=
| Parsed (l : list obj)           (* an array of flat objects, as the model holds it *)
| ParsedOther (k : json_kind)     (* any other JSON value, of kind [k] *)
| Throws.                         (* a SyntaxError *)

Definition JSON_parse (t : string) : parse_result :=
  if json_valid t then
    match json_parse t with
    | Some l => Parsed l
    | None => ParsedOther (json_top_kind t)
    end
  else Throws.

(** ** Reading what [JSON.stringify] writes *)

Lemma json_scan_app s a b :
  json_scan s (a +++ b) = match json_scan s a with Some s' => json_scan s' b | None => None end.
Proof.
  revert s. induction a as [|c a IH]; intros s; [done|].
  rewrite str_app_cons. simpl. destruct (feed s c); [apply IH|done].
Qed.

(** QuoteJSONString writes, for each of the 256 characters, a piece of
    a string literal. *)
Lemma json_scan_escape key k c :
  json_scan (MStr key SPlain, k) (escape c) = Some (MStr key SPlain, k).
Proof. destruct c as [[] [] [] [] [] [] [] []]; reflexivity. Qed.

Lemma json_scan_esc key k s rest :
  json_scan (MStr key SPlain, k) (esc s +++ String dq rest) =
  json_scan (if key then MColon else MAfter, k) rest.
Proof.
  induction s as [|c s IH]; cbn [esc]; [done|].
  by rewrite str_app_assoc, json_scan_app, json_scan_escape.
Qed.

Lemma json_scan_step s c r s' :
  feed s c = Some s' → json_scan s (String c r) = json_scan s' r.
Proof. simpl. by intros ->. Qed.

(** A number ends where a character cannot continue it. *)
Lemma json_scan_num_end st k c r :
  num_accepting st = true → num_next st c = None →
  json_scan (MNum st, k) (String c r) = json_scan (MAfter, k) (String c r).
Proof. intros Ha Hn. simpl. by rewrite Hn, Ha. Qed.

Lemma num_next_stop st c :
  st = NZero ∨ st = NInt → is_num_char c = false → is_frac_or_exp c = false →
  num_next st c = None.
Proof.
  intros [-> | ->]; destruct c as [[] [] [] [] [] [] [] []];
    try discriminate; reflexivity.
Qed.

Lemma json_scan_digits k d rest :
  json_scan (MNum NInt, k) (NilEmpty.string_of_uint d +++ rest) =
  json_scan (MNum NInt, k) rest.
Proof. induction d; cbn [NilEmpty.string_of_uint]; rewrite ?str_app_cons; done. Qed.

Lemma nzhead_not_D0 d d' : Decimal.nzhead d ≠ Decimal.D0 d'.
Proof. induction d; simpl; congruence. Qed.

(** The decimal digits of a positive number have no leading zero. *)
Lemma to_uint_lead p d : Pos.to_uint p ≠ Decimal.D0 d.
Proof.
  intros Hd.
  assert (Hn : Decimal.unorm (Pos.to_uint p) = Pos.to_uint p).
  { rewrite <- DecimalPos.Unsigned.to_of, DecimalPos.Unsigned.of_to. reflexivity. }
  rewrite Hd in Hn. unfold Decimal.unorm in Hn. simpl in Hn.
  destruct (Decimal.nzhead d) eqn:E; try congruence.
  - injection Hn as <-. by apply (DecimalPos.Unsigned.to_uint_nonzero p).
  - injection Hn as <-. exact (nzhead_not_D0 _ _ E).
Qed.

Lemma json_scan_pos_uint m k p rest :
  m = MNum NMinus ∨ (∃ b, m = MValue b) →
  json_scan (m, k) (NilZero.string_of_uint (Pos.to_uint p) +++ rest) =
  json_scan (MNum NInt, k) rest.
Proof.
  intros Hm. pose proof (to_uint_lead p) as H0.
  pose proof (DecimalPos.Unsigned.to_uint_nonnil p) as H1.
  destruct (Pos.to_uint p) as [|d|d|d|d|d|d|d|d|d|d]; [done|by destruct (H0 d)|..];
    destruct Hm as [->|[b ->]]; cbn [NilZero.string_of_uint NilEmpty.string_of_uint];
    rewrite str_app_cons; apply json_scan_digits.
Qed.

Lemma json_scan_Z b k z c r :
  num_stop (String c r) →
  json_scan (MValue b, k) (Z_to_string z +++ String c r) = json_scan (MAfter, k) (String c r).
Proof.
  intros Hs. destruct (Hs c r eq_refl) as [Hn Hf]. unfold Z_to_string.
  destruct z as [|p|p]; simpl Z.to_int; cbn [NilZero.string_of_int].
  - cbn [NilZero.string_of_uint NilEmpty.string_of_uint].
    rewrite str_app_cons, str_app_nil, (json_scan_step _ _ _ (MNum NZero, k)) by done.
    apply json_scan_num_end; [done|]. apply num_next_stop; auto.
  - rewrite json_scan_pos_uint by eauto.
    apply json_scan_num_end; [done|]. apply num_next_stop; auto.
  - rewrite str_app_cons, (json_scan_step _ _ _ (MNum NMinus, k)) by done.
    rewrite json_scan_pos_uint by auto.
    apply json_scan_num_end; [done|]. apply num_next_stop; auto.
Qed.

Lemma json_scan_value b k v c r :
  v ≠ VUndefined → num_stop (String c r) →
  json_scan (MValue b, k) (value_json v +++ String c r) = json_scan (MAfter, k) (String c r).
Proof.
  intros Hv Hs. destruct v as [| |[]|[z|]|s]; try done.
  - by apply json_scan_Z.
  - cbn [value_json]. unfold quote. autorewrite with todo_rw.
    rewrite (json_scan_step _ _ _ (MStr false SPlain, k)) by done.
    by rewrite json_scan_esc.
Qed.

Lemma json_scan_member b k kv c r :
  kv.2 ≠ VUndefined → num_stop (String c r) →
  json_scan (MKey b, FObject :: k) (member_json kv +++ String c r) =
  json_scan (MAfter, FObject :: k) (String c r).
Proof.
  intros Hv Hs. unfold member_json, quote. autorewrite with todo_rw.
  rewrite (json_scan_step _ _ _ (MStr true SPlain, FObject :: k)) by done.
  rewrite json_scan_esc, (json_scan_step _ _ _ (MValue false, FObject :: k)) by done.
  by apply json_scan_value.
Qed.

Lemma json_scan_members b k ms r :
  ms ≠ [] → Forall (λ kv, kv.2 ≠ VUndefined) ms →
  json_scan (MKey b, FObject :: k) (join "," (map member_json ms) +++ String "}" r) =
  json_scan (MAfter, k) r.
Proof.
  revert b. induction ms as [|m ms IH]; intros b Hne Hd; [done|].
  inversion_clear Hd as [|? ? Hm Hd'].
  destruct ms as [|m' ms].
  - change (join "," (map member_json [m])) with (member_json m).
    rewrite json_scan_member by auto with todo. by apply json_scan_step.
  - change (join "," (map member_json (m :: m' :: ms)))
      with (member_json m +++ String "," (join "," (map member_json (m' :: ms)))).
    rewrite str_app_assoc, str_app_cons, json_scan_member by auto with todo.
    rewrite (json_scan_step _ _ _ (MKey false, FObject :: k)) by done.
    by apply IH.
Qed.

Lemma json_scan_object b k o c r :
  num_stop (String c r) →
  json_scan (MValue b, k) (obj_json o +++ String c r) = json_scan (MAfter, k) (String c r).
Proof.
  intros Hs. unfold obj_json. autorewrite with todo_rw.
  rewrite (json_scan_step _ _ _ (MKey true, FObject :: k)) by done.
  destruct (List.filter defined o) as [|m ms] eqn:E.
  - cbn [map join]. autorewrite with todo_rw. by apply json_scan_step.
  - rewrite <- E, json_scan_members; [done|by rewrite E|apply filter_defined_Forall].
Qed.

Lemma json_scan_objects b k l r :
  l ≠ [] →
  json_scan (MValue b, FArray :: k) (join "," (map obj_json l) +++ String "]" r) =
  json_scan (MAfter, k) r.
Proof.
  revert b. induction l as [|o l IH]; intros b Hne; [done|].
  destruct l as [|o' l].
  - change (join "," (map obj_json [o])) with (obj_json o).
    rewrite json_scan_object by auto with todo. by apply json_scan_step.
  - change (join "," (map obj_json (o :: o' :: l)))
      with (obj_json o +++ String "," (join "," (map obj_json (o' :: l)))).
    rewrite str_app_assoc, str_app_cons, json_scan_object by auto with todo.
    rewrite (json_scan_step _ _ _ (MValue false, FArray :: k)) by done.
    by apply IH.
Qed.

(** Every text [JSON.stringify] writes from a list of objects is JSON. *)
Lemma json_valid_stringify l : json_valid (stringify l) = true.
Proof.
  unfold json_valid, stringify. destruct l as [|o l]; [reflexivity|].
  rewrite (json_scan_step _ _ _ (MValue true, [FArray])) by done.
  by rewrite json_scan_objects.
Qed.

(** The round trip through [JSON.parse]: the text of a list of records
    is read back as that list, normalised. *)
Lemma JSON_parse_stringify l :
  Forall wf_obj l → JSON_parse (stringify l) = Parsed (map normalize l).
Proof. intros Hwf. unfold JSON_parse. by rewrite json_valid_stringify, json_parse_stringify. Qed.

Lemma JSON_parse_Parsed t l : JSON_parse t = Parsed l → json_parse t = Some l.
Proof. unfold JSON_parse. repeat case_match; congruence. Qed.

Lemma JSON_parse_Parsed_wf t l : JSON_parse t = Parsed l → Forall wf_obj l.
Proof. intros H. eapply json_parse_wf, JSON_parse_Parsed, H. Qed.
