(* ===== verification/Store.v ===== *)
(** * The store: the task list of App.js and its four handlers

    [todos] is the list of task objects held in the state of [App].  The
    handlers are translated from src/src/App.js lines 47-76:
    [addTodo] builds a record from the form data and two readings of the
    clock ([Date.now()] is called once for [id] and once for
    [createdAt]), and appends it to the list the render saw; [toggleTodo]
    maps [{...todo, completed: !todo.completed}] over the records whose
    [id] is [===] to the argument; [deleteTodo] filters them out;
    [updateTodo] maps [{...todo, ...newData}] over them.  The React state
    updates themselves ([setTodos] with a value or with an updater) are
    modelled with the application's step relation; here each handler is
    the list it produces. *)

From S2P Require Import Prelude JsValue.

Module Store.

(** The record built by [addTodo] (lines 48-56). *)
Definition newTodo (now_id now_created : Z) (todoData : obj) : obj :=
  [("id", VNum (Fin now_id));
   ("createdAt", VNum (Fin now_created));
   ("title", todoData.["title"]);
   ("description", js_or todoData.["description"] (VStr ""));
   ("priority", js_or todoData.["priority"] (VStr "medium"));
   ("dueDate", js_or todoData.["dueDate"] (VStr ""));
   ("completed", VBool false)].

(** [setTodos([...todos, newTodo])] (line 57). *)
Definition addTodo (now_id now_created : Z) (todoData : obj) (todos : list obj)
  : list obj :=
  todos ++ [newTodo now_id now_created todoData].

(** [todo.id === id]. *)
Definition matches (id : value) (todo : obj) : bool := todo.["id"] === id.

(** Lines 60-66. *)
Definition toggleTodo (id : value) (todos : list obj) : list obj :=
  map (λ todo,
    if matches id todo
    then with_prop (spread [] todo) "completed" (VBool (negb (truthy todo.["completed"])))
    else todo) todos.

(** Lines 68-70. *)
Definition deleteTodo (id : value) (prev : list obj) : list obj :=
  List.filter (λ todo, negb (matches id todo)) prev.

(** Lines 72-76. *)
Definition updateTodo (id : value) (newData : obj) (prev : list obj) : list obj :=
  map (λ todo, if matches id todo then spread (spread [] todo) newData else todo) prev.

(** ** The shape of a task record (spec section 3) *)

Definition is_num (v : value) : bool :=
  match v with VNum (Fin _) => true | _ => false end.
Definition is_str (v : value) : bool :=
  match v with VStr _ => true | _ => false end.
Definition is_bool (v : value) : bool :=
  match v with VBool _ => true | _ => false end.
Definition is_priority (v : value) : bool :=
  match v with
  | VStr s => bool_decide (s ∈ ["low"; "medium"; "high"])
  | _ => false
  end.

(** The type a field of a task must have. *)
Definition field_ok (k : string) (v : value) : bool :=
  match k with
  | "id" | "createdAt" => is_num v
  | "title" | "description" | "dueDate" => is_str v
  | "priority" => is_priority v
  | "completed" => is_bool v
  | _ => true
  end.

Definition task_fields : list string :=
  ["id"; "createdAt"; "title"; "description"; "priority"; "dueDate"; "completed"].

Definition task_shape (t : obj) : bool :=
  forallb (λ k, field_ok k t.[k]) task_fields.

Definition task_ok (t : obj) : Prop := wf_obj t ∧ task_shape t = true.

(** What the form may hand to [addTodo]: a string title, and optional
    fields that are falsy or of the right type. *)
Definition form_ok (d : obj) : bool :=
  is_str d.["title"]
  && (negb (truthy d.["description"]) || is_str d.["description"])
  && (negb (truthy d.["priority"]) || is_priority d.["priority"])
  && (negb (truthy d.["dueDate"]) || is_str d.["dueDate"]).

(** What [updateTodo] may merge: every task field it carries is of the
    right type. *)
Definition patch_ok (nd : obj) : Prop :=
  wf_obj nd ∧ Forall (λ kv, field_ok kv.1 kv.2 = true) nd.

Definition ids (todos : list obj) : list value := map (λ t, t.["id"]) todos.

(** ** Lemmas on matching and shape *)

Lemma matches_with_prop id t k v :
  k ≠ "id" → matches id (with_prop t k v) = matches id t.
Proof. intros. unfold matches. by rewrite get_with_prop_ne. Qed.

Lemma task_shape_spec t :
  task_shape t = true ↔ ∀ k, k ∈ task_fields → field_ok k t.[k] = true.
Proof.
  unfold task_shape. rewrite forallb_forall.
  setoid_rewrite list_elem_of_In. done.
Qed.

Lemma toggled_ok t :
  task_ok t → task_ok (with_prop (spread [] t) "completed"
                         (VBool (negb (truthy t.["completed"])))).
Proof.
  intros [Hwf Hs]. rewrite spread_nil by done. split; [by apply wf_with_prop|].
  apply task_shape_spec. intros k Hk. destruct (decide (k = "completed")) as [->|Hne].
  - by rewrite get_with_prop_eq.
  - rewrite get_with_prop_ne by done. by apply task_shape_spec.
Qed.

Lemma patched_ok t nd : task_ok t → patch_ok nd → task_ok (spread (spread [] t) nd).
Proof.
  intros [Hwf Hs] [Hnd Hf]. rewrite spread_nil by done.
  split; [by apply wf_spread|]. apply task_shape_spec. intros k Hk.
  rewrite get_spread by done. destruct (alookup k nd) as [v|] eqn:E.
  - apply alookup_Some_elem in E. rewrite Forall_forall in Hf. by apply Hf in E.
  - by apply task_shape_spec.
Qed.

Lemma map_matches_absent id (f : obj → obj) (todos : list obj) :
  Forall (λ t, matches id t = false) todos →
  map (λ t, if matches id t then f t else t) todos = todos.
Proof.
  intros H. apply map_id_on. eapply Forall_impl; [exact H|]. simpl.
  by intros t ->.
Qed.

Lemma newTodo_get n n' d :
  (newTodo n n' d).["id"] = VNum (Fin n) ∧
  (newTodo n n' d).["createdAt"] = VNum (Fin n') ∧
  (newTodo n n' d).["title"] = d.["title"] ∧
  (newTodo n n' d).["description"] = js_or d.["description"] (VStr "") ∧
  (newTodo n n' d).["priority"] = js_or d.["priority"] (VStr "medium") ∧
  (newTodo n n' d).["dueDate"] = js_or d.["dueDate"] (VStr "") ∧
  (newTodo n n' d).["completed"] = VBool false.
Proof. split_and!; reflexivity. Qed.

Lemma newTodo_ok n n' d : form_ok d = true → task_ok (newTodo n n' d).
Proof.
  unfold form_ok. intros H. repeat (apply andb_prop in H as [H ?]).
  split; [by apply (bool_decide_unpack _); vm_compute|].
  apply task_shape_spec. intros k Hk.
  destruct (newTodo_get n n' d) as (E1 & E2 & E3 & E4 & E5 & E6 & E7).
  repeat (apply elem_of_cons in Hk as [->|Hk]); [..|set_solver];
    rewrite ?E1, ?E2, ?E3, ?E4, ?E5, ?E6, ?E7; simpl; try done;
    unfold js_or; case_match eqn:E; try rewrite E in *; simpl in *; done.
Qed.

Lemma ids_map_same (f : obj → obj) (todos : list obj) :
  Forall (λ t, (f t).["id"] = t.["id"]) todos → ids (map f todos) = ids todos.
Proof. induction 1; simpl; [done|]. unfold ids in *. by f_equal. Qed.

(** ** The handlers *)

(** C1: toggle, delete and update on an id that no record
    carries ([===]) give back the list unchanged, without an error. *)
Theorem unknown_id_noop id nd todos :
  Forall (λ t, matches id t = false) todos →
  toggleTodo id todos = todos ∧ deleteTodo id todos = todos ∧
  updateTodo id nd todos = todos.
Proof.
  intros H. split_and!; [by apply map_matches_absent| |by apply map_matches_absent].
  apply filter_all_true. eapply Forall_impl; [exact H|]. simpl. by intros t ->.
Qed.

Lemma unknown_id_noop_witness :
  let l := [[("id", VNum (Fin 1)); ("completed", VBool false)]] in
  toggleTodo (VNum (Fin 9)) l = l ∧ deleteTodo (VNum (Fin 9)) l = l ∧
  updateTodo (VNum (Fin 9)) [("title", VStr "x")] l = l.
Proof. apply unknown_id_noop. by repeat constructor. Defined.

(** C8: toggling flips [completed] (through ToBoolean)
    on each record whose [id] matches, leaves every other field of that
    record as it was, and leaves the other records untouched. *)
Theorem toggleTodo_record id todos i t :
  todos !! i = Some t → wf_obj t →
  ∃ t', toggleTodo id todos !! i = Some t' ∧
    if matches id t
    then t'.["completed"] = VBool (negb (truthy t.["completed"])) ∧
         ∀ k, k ≠ "completed" → t'.[k] = t.[k]
    else t' = t.
Proof.
  intros Hi Hwf. unfold toggleTodo. rewrite list_lookup_map, Hi. simpl.
  eexists; split; [done|]. destruct (matches id t); [|done].
  rewrite spread_nil by done. split; [apply get_with_prop_eq|].
  intros k Hk. by apply get_with_prop_ne.
Qed.

Lemma toggleTodo_record_witness :
  ∃ t', toggleTodo (VNum (Fin 1)) [[("id", VNum (Fin 1)); ("completed", VBool false)]] !! 0%nat
          = Some t' ∧
    if matches (VNum (Fin 1)) [("id", VNum (Fin 1)); ("completed", VBool false)]
    then t'.["completed"] = VBool (negb (truthy (VBool false))) ∧
         ∀ k, k ≠ "completed" →
           t'.[k] = [("id", VNum (Fin 1)); ("completed", VBool false)].[k]
    else t' = [("id", VNum (Fin 1)); ("completed", VBool false)].
Proof.
  apply (toggleTodo_record (VNum (Fin 1)) _ 0%nat); [reflexivity|].
  by apply (bool_decide_unpack _); vm_compute.
Defined.

(** C6: updating overwrites exactly the fields the
    patch carries on each matching record; the other fields and the
    other records are unchanged. *)
Theorem updateTodo_record id nd todos i t :
  todos !! i = Some t → wf_obj t → wf_obj nd →
  ∃ t', updateTodo id nd todos !! i = Some t' ∧
    if matches id t
    then ∀ k, t'.[k] = match alookup k nd with Some v => v | None => t.[k] end
    else t' = t.
Proof.
  intros Hi Hwf Hnd. unfold updateTodo. rewrite list_lookup_map, Hi. simpl.
  eexists; split; [done|]. destruct (matches id t); [|done].
  intros k. rewrite spread_nil by done. by apply get_spread.
Qed.

Lemma updateTodo_record_witness :
  let t := [("id", VNum (Fin 1)); ("title", VStr "a"); ("priority", VStr "low")] in
  ∃ t', updateTodo (VNum (Fin 1)) [("priority", VStr "high")] [t] !! 0%nat = Some t' ∧
    if matches (VNum (Fin 1)) t
    then ∀ k, t'.[k] = match alookup k [("priority", VStr "high")] with
                       | Some v => v | None => t.[k] end
    else t' = t.
Proof.
  apply (updateTodo_record _ _ _ 0%nat); [reflexivity| |];
    by apply (bool_decide_unpack _); vm_compute.
Defined.

(** C9: a record survives deletion exactly when it was
    in the list and its [id] does not match; survivors keep their
    order (deletion is a filter). *)
Theorem deleteTodo_spec id todos x :
  x ∈ deleteTodo id todos ↔ x ∈ todos ∧ matches id x = false.
Proof.
  unfold deleteTodo. rewrite !list_elem_of_In, filter_In.
  by rewrite Bool.negb_true_iff.
Qed.

(** C5: adding appends exactly one record, which carries the clock
    reading [now_id] as its [id]; when no record already has that id,
    deleting it removes exactly that record and gives back the list. *)
Theorem add_then_delete n n' d todos :
  Forall (λ t, matches (VNum (Fin n)) t = false) todos →
  ∃ t, addTodo n n' d todos = todos ++ [t] ∧ matches (VNum (Fin n)) t = true ∧
       deleteTodo (VNum (Fin n)) (addTodo n n' d todos) = todos.
Proof.
  intros H. exists (newTodo n n' d).
  assert (matches (VNum (Fin n)) (newTodo n n' d) = true) as Hm.
  { unfold matches. rewrite (proj1 (newTodo_get n n' d)). apply strict_eq_refl. done. }
  split_and!; [done|done|]. unfold deleteTodo, addTodo. rewrite List.filter_app.
  simpl. rewrite Hm, app_nil_r. apply filter_all_true.
  eapply Forall_impl; [exact H|]. simpl. by intros ? ->.
Qed.

Lemma add_then_delete_witness :
  ∃ t, addTodo 5 6 [("title", VStr "Buy milk")] [[("id", VNum (Fin 1))]] =
         [[("id", VNum (Fin 1))]] ++ [t] ∧ matches (VNum (Fin 5)) t = true ∧
       deleteTodo (VNum (Fin 5)) (addTodo 5 6 [("title", VStr "Buy milk")]
         [[("id", VNum (Fin 1))]]) = [[("id", VNum (Fin 1))]].
Proof. apply add_then_delete. by repeat constructor. Defined.

(** C7: the shape of task records is an
    invariant of the four handlers, given form data and patches of the
    right types. *)
Theorem handlers_preserve_task_ok todos n n' d id nd :
  Forall task_ok todos →
  (form_ok d = true → Forall task_ok (addTodo n n' d todos)) ∧
  Forall task_ok (toggleTodo id todos) ∧
  Forall task_ok (deleteTodo id todos) ∧
  (patch_ok nd → Forall task_ok (updateTodo id nd todos)).
Proof.
  intros H. split_and!.
  - intros Hd. apply Forall_app. split; [done|]. by constructor; [apply newTodo_ok|].
  - apply Forall_map. eapply Forall_impl; [exact H|]. intros t Ht; simpl.
    destruct (matches id t); [by apply toggled_ok|done].
  - by apply Forall_list_filter.
  - intros Hnd. apply Forall_map. eapply Forall_impl; [exact H|]. intros t Ht; simpl.
    destruct (matches id t); [by apply patched_ok|done].
Qed.

Lemma handlers_preserve_task_ok_witness :
  let t := [("id", VNum (Fin 1)); ("createdAt", VNum (Fin 1)); ("title", VStr "a");
            ("description", VStr ""); ("priority", VStr "low");
            ("dueDate", VStr ""); ("completed", VBool false)] in
  (form_ok [("title", VStr "b")] = true →
     Forall task_ok (addTodo 2 2 [("title", VStr "b")] [t])) ∧
  Forall task_ok (toggleTodo (VNum (Fin 1)) [t]) ∧
  Forall task_ok (deleteTodo (VNum (Fin 1)) [t]) ∧
  (patch_ok [("priority", VStr "high")] →
     Forall task_ok (updateTodo (VNum (Fin 1)) [("priority", VStr "high")] [t])).
Proof.
  apply handlers_preserve_task_ok. constructor; [|constructor].
  split; by apply (bool_decide_unpack _); vm_compute.
Defined.

(** C10: distinct ids are an invariant of the
    handlers when [addTodo] gets a clock reading no record carries and
    the patch of [updateTodo] does not set [id]. *)
Theorem handlers_preserve_unique_ids todos n n' d id nd :
  Forall wf_obj todos → NoDup (ids todos) →
  (VNum (Fin n) ∉ ids todos → NoDup (ids (addTodo n n' d todos))) ∧
  NoDup (ids (toggleTodo id todos)) ∧
  NoDup (ids (deleteTodo id todos)) ∧
  (wf_obj nd → alookup "id" nd = None → NoDup (ids (updateTodo id nd todos))).
Proof.
  intros Hwf Hnd. split_and!.
  - intros Hfresh. unfold ids, addTodo. rewrite map_app. simpl.
    apply NoDup_app. split_and!; [done| |by apply NoDup_singleton].
    intros x Hx Hx2. apply list_elem_of_singleton in Hx2. by subst.
  - unfold toggleTodo. rewrite ids_map_same; [done|].
    eapply Forall_impl; [exact Hwf|]. intros t Ht; simpl.
    destruct (matches id t); [|done]. rewrite spread_nil by done.
    by apply get_with_prop_ne.
  - by apply NoDup_map_filter.
  - intros Hw Hid. unfold updateTodo. rewrite ids_map_same; [done|].
    eapply Forall_impl; [exact Hwf|]. intros t Ht; simpl.
    destruct (matches id t); [|done]. rewrite spread_nil, get_spread by done.
    by rewrite Hid.
Qed.

Lemma handlers_preserve_unique_ids_witness :
  let l := [[("id", VNum (Fin 1))]; [("id", VNum (Fin 2))]] in
  (VNum (Fin 3) ∉ ids l → NoDup (ids (addTodo 3 3 [("title", VStr "c")] l))) ∧
  NoDup (ids (toggleTodo (VNum (Fin 1)) l)) ∧
  NoDup (ids (deleteTodo (VNum (Fin 1)) l)) ∧
  (wf_obj [("title", VStr "d")] → alookup "id" [("title", VStr "d")] = None →
     NoDup (ids (updateTodo (VNum (Fin 1)) [("title", VStr "d")] l))).
Proof.
  apply handlers_preserve_unique_ids;
    [repeat constructor; by apply (bool_decide_unpack _); vm_compute|].
  by apply (bool_decide_unpack _); vm_compute.
Defined.
End Store.
