(* ===== verification/Projector.v ===== *)
(** * The projector: sortTodos and getFilteredTodos of TodoList.js

    [TodoList] keeps two pieces of local state, [filter] (initially
    "all") and [sortBy] (initially "created"), set by two [<select>]
    elements, and renders [getFilteredTodos()]: the records whose
    [completed] is [=== true] for the filter "completed", those whose
    [completed] is [=== false] for the filter "false", all of them
    otherwise, then [sortTodos] of that list.  The guard
    [!todos || !Array.isArray(todos)] (line 33) never fires in the model,
    where the store's list is always an array.  [sortTodos] is
    translated against the [ArraySort] interface of [JsArray]. *)

From S2P Require Import Prelude JsValue JsArray JsDate.

Module TodoList.

(** [const priorityOrder = { high: 3, medium: 2, low: 1 }] (line 14). *)
Definition priorityOrder : obj :=
  [("high", VNum (Fin 3)); ("medium", VNum (Fin 2)); ("low", VNum (Fin 1))].

(** [priorityOrder[p] || 0] (lines 16-17), as the number the comparator
    subtracts: a member inherited from Object.prototype is a function,
    truthy, and NaN once subtracted. *)
Definition priority_rank (p : value) : num :=
  match member_get priorityOrder (to_property_key p) with
  | Own v => to_number (js_or v (VNum (Fin 0)))
  | Inherited => NaN
  | Missing => Fin 0
  end.

(** Lines 15-19. *)
Definition priority_cmp (a b : obj) : num :=
  num_sub (priority_rank b.["priority"]) (priority_rank a.["priority"]).

(** Lines 21-25. *)
Definition dueDate_cmp (a b : obj) : num :=
  if negb (truthy a.["dueDate"]) then Fin 1
  else if negb (truthy b.["dueDate"]) then Fin (-1)
  else num_sub (date_value a.["dueDate"]) (date_value b.["dueDate"]).

(** Line 28. *)
Definition created_cmp (a b : obj) : num :=
  num_sub (to_number b.["createdAt"]) (to_number a.["createdAt"]).

(** Lines 9-30: [[...todosToSort].sort(cmp)] for the comparator that
    [sortBy] selects; "created" and every other value use the default. *)
Definition sortTodos `{ArraySort} (todosToSort : list obj) (sortBy : string)
  : list obj :=
  let sorted := todosToSort in
  match sortBy with
  | "priority" => array_sort priority_cmp sorted
  | "dueDate" => array_sort dueDate_cmp sorted
  | _ => array_sort created_cmp sorted
  end.

(** The status filter of lines 35-41. *)
Definition filterTodos (todos : list obj) (filter : string) : list obj :=
  if String.eqb filter "completed"
  then List.filter (λ todo, todo.["completed"] === VBool true) todos
  else if String.eqb filter "false"
  then List.filter (λ todo, todo.["completed"] === VBool false) todos
  else todos.

(** Lines 32-44. *)
(** The comparator the [switch] of lines 12-29 hands to [sort]. *)
Definition sort_cmp (sortBy : string) : obj → obj → num :=
  match sortBy with
  | "priority" => priority_cmp
  | "dueDate" => dueDate_cmp
  | _ => created_cmp
  end.

Definition getFilteredTodos `{ArraySort} (todos : list obj) (filter sortBy : string)
  : list obj :=
  sortTodos (filterTodos todos filter) sortBy.

(** ** The selectors (lines 6-7 and 62-80) *)

Record ui := { filter : string; sortBy : string }.

Definition ui_init : ui := {| filter := "all"; sortBy := "created" |}.

Definition filter_options : list string := ["all"; "pending"; "completed"].
Definition sort_options : list string := ["created"; "priority"; "dueDate"].

(** [onChange={(e) => setFilter(e.target.value)}] and the same for
    [setSortBy]: the event carries the value of the chosen option. *)
Inductive ui_event := SelectFilter (v : string) | SelectSort (v : string).

Definition ui_handle (u : ui) (e : ui_event) : ui :=
  match e with
  | SelectFilter v => {| filter := v; sortBy := sortBy u |}
  | SelectSort v => {| filter := filter u; sortBy := v |}
  end.

(** An event a [<select>] can fire: one of its options. *)
Definition ui_event_ok (e : ui_event) : Prop :=
  match e with
  | SelectFilter v => v ∈ filter_options
  | SelectSort v => v ∈ sort_options
  end.

Inductive ui_reachable : ui → Prop :=
| ui_reach_init : ui_reachable ui_init
| ui_reach_step u e : ui_reachable u → ui_event_ok e → ui_reachable (ui_handle u e).


(** The keys the three comparators sort by. *)
Definition rank_key (t : obj) : Z :=
  match priority_rank t.["priority"] with Fin z => - z | NaN => 0 end.

Definition due_key (t : obj) : Z :=
  if truthy t.["dueDate"]
  then match date_value t.["dueDate"] with Fin z => z | NaN => 0 end
  else 8640000000000001.

Definition created_key (t : obj) : Z :=
  match to_number t.["createdAt"] with Fin z => - z | NaN => 0 end.

(** ** Theorems *)

Lemma sortTodos_sort_cmp `{ArraySort} l sb : sortTodos l sb = array_sort (sort_cmp sb) l.
Proof. unfold sortTodos, sort_cmp. repeat case_match; reflexivity. Qed.

Lemma filterTodos_elem todos filter x : x ∈ filterTodos todos filter → x ∈ todos.
Proof.
  unfold filterTodos. repeat case_match; try done;
    rewrite !list_elem_of_In, filter_In; tauto.
Qed.

Lemma filterTodos_Forall (P : obj → Prop) todos filter :
  Forall P todos → Forall P (filterTodos todos filter).
Proof. unfold filterTodos. repeat case_match; auto using Forall_list_filter. Qed.

Lemma ui_reachable_options u :
  ui_reachable u → filter u ∈ filter_options ∧ sortBy u ∈ sort_options.
Proof.
  induction 1 as [|u [v|v] Hu IH He]; simpl in *; [split; set_solver|tauto|tauto].
Qed.

(** C15: [priorityOrder[p] || 0] is 3, 2, 1 for the
    keys "high", "medium", "low", NaN for a key that Object.prototype
    defines (e.g. "toString"), and 0 for every other key. *)
Theorem priority_rank_spec p :
  priority_rank p =
    if decide (to_property_key p = "high") then Fin 3
    else if decide (to_property_key p = "medium") then Fin 2
    else if decide (to_property_key p = "low") then Fin 1
    else if decide (to_property_key p ∈ object_prototype_keys) then NaN
    else Fin 0.
Proof.
  unfold priority_rank, member_get. cbn [alookup priorityOrder].
  repeat case_decide; simplify_eq; done.
Qed.

Lemma priority_lt_by_key l :
  Forall (λ t, priority_rank t.["priority"] ≠ NaN) l →
  lt_by_key priority_cmp rank_key l.
Proof.
  intros H a b Ha Hb. rewrite Forall_forall in H.
  pose proof (H a Ha) as Hva. pose proof (H b Hb) as Hvb.
  unfold sort_compare, priority_cmp, rank_key.
  destruct (priority_rank a.["priority"]), (priority_rank b.["priority"]);
    simpl; try done; lia.
Qed.

Lemma dueDate_lt_by_key l :
  Forall (λ t, truthy t.["dueDate"] = true → date_value t.["dueDate"] ≠ NaN) l →
  lt_by_key dueDate_cmp due_key l.
Proof.
  intros H a b Ha Hb. rewrite Forall_forall in H.
  pose proof (H a Ha) as Hva. pose proof (H b Hb) as Hvb.
  unfold sort_compare, dueDate_cmp, due_key.
  destruct (truthy a.["dueDate"]), (truthy b.["dueDate"]); simpl; try (split; lia).
  - destruct (date_value a.["dueDate"]) as [x|]; [|by exfalso; apply Hva].
    destruct (date_value b.["dueDate"]) as [y|]; [|by exfalso; apply Hvb].
    simpl. lia.
  - destruct (date_value a.["dueDate"]) as [x|] eqn:Ea; [|by exfalso; apply Hva].
    apply date_value_bound in Ea. split; lia.
  - destruct (date_value b.["dueDate"]) as [y|] eqn:Eb; [|by exfalso; apply Hvb].
    apply date_value_bound in Eb. split; lia.
Qed.

Lemma created_lt_by_key l :
  Forall (λ t, to_number t.["createdAt"] ≠ NaN) l →
  lt_by_key created_cmp created_key l.
Proof.
  intros H a b Ha Hb. rewrite Forall_forall in H.
  pose proof (H a Ha) as Hva. pose proof (H b Hb) as Hvb.
  unfold sort_compare, created_cmp, created_key.
  destruct (to_number a.["createdAt"]), (to_number b.["createdAt"]);
    simpl; try done; lia.
Qed.

Section WithSort.
Context {S : ArraySort} {HS : ArraySortSpec S}.

Lemma sortTodos_cases (P : list obj → Prop) l sortBy :
  P (array_sort priority_cmp l) → P (array_sort dueDate_cmp l) →
  P (array_sort created_cmp l) → P (sortTodos l sortBy).
Proof.
  intros. unfold sortTodos.
  repeat (case_match; try done).
Qed.

Lemma sortTodos_perm l sortBy : Permutation (sortTodos l sortBy) l.
Proof. apply sortTodos_cases; apply array_sort_perm. Qed.

Lemma sortTodos_default l sortBy :
  sortBy ≠ "priority" → sortBy ≠ "dueDate" →
  sortTodos l sortBy = array_sort created_cmp l.
Proof.
  intros H1 H2. unfold sortTodos.
  repeat (case_match; simplify_eq; try done).
Qed.

(** C2: with the filter "completed", every
    record shown has [completed === true], whatever the sort. *)
Theorem completed_view_only_completed todos sortBy :
  Forall (λ t, t.["completed"] = VBool true) (getFilteredTodos todos "completed" sortBy).
Proof.
  unfold getFilteredTodos. rewrite sortTodos_perm. cbn [filterTodos String.eqb].
  unfold filterTodos. simpl.
  eapply Forall_impl; [apply Forall_list_filter_true|]. simpl.
  intros t Ht. by apply strict_eq_true.
Qed.

(** C11: when no record's priority is a
    key of Object.prototype, the "priority" view is the stable sort of
    the filtered list by decreasing rank, whatever engine implements
    the sort contract. *)
Theorem priority_view_refines_key_sort todos filter :
  Forall (λ t, priority_rank t.["priority"] ≠ NaN) todos →
  getFilteredTodos todos filter "priority" = key_sort rank_key (filterTodos todos filter).
Proof.
  intros H. by apply array_sort_by_key, priority_lt_by_key, filterTodos_Forall.
Qed.


(** C12: when every non-empty due date is a
    valid date, the "dueDate" view is the stable sort of the filtered
    list by due date, with the records without a due date last. *)
Theorem dueDate_view_refines_key_sort todos filter :
  Forall (λ t, truthy t.["dueDate"] = true → date_value t.["dueDate"] ≠ NaN) todos →
  getFilteredTodos todos filter "dueDate" = key_sort due_key (filterTodos todos filter).
Proof.
  intros H. by apply array_sort_by_key, dueDate_lt_by_key, filterTodos_Forall.
Qed.


(** C13: when every record has a numeric
    [createdAt], the default view ("created", and any value other than
    "priority" and "dueDate") is the stable sort by decreasing
    creation time. *)
Theorem created_view_refines_key_sort todos filter sortBy :
  sortBy ≠ "priority" → sortBy ≠ "dueDate" →
  Forall (λ t, to_number t.["createdAt"] ≠ NaN) todos →
  getFilteredTodos todos filter sortBy = key_sort created_key (filterTodos todos filter).
Proof.
  intros H1 H2 H. unfold getFilteredTodos. rewrite sortTodos_default by done.
  by apply array_sort_by_key, created_lt_by_key, filterTodos_Forall.
Qed.


(** C4: in the "dueDate" view, a record with a due
    date is preceded only by records with a due date, no later than
    its own. *)
Theorem dueDate_view_order todos filter i j a b :
  Forall (λ t, truthy t.["dueDate"] = true → date_value t.["dueDate"] ≠ NaN) todos →
  (i < j)%nat →
  getFilteredTodos todos filter "dueDate" !! i = Some a →
  getFilteredTodos todos filter "dueDate" !! j = Some b →
  truthy b.["dueDate"] = true →
  truthy a.["dueDate"] = true ∧
  ∃ x y, date_value a.["dueDate"] = Fin x ∧ date_value b.["dueDate"] = Fin y ∧ x ≤ y.
Proof.
  intros H Hij Ha Hb Htb.
  unfold getFilteredTodos, sortTodos in Ha, Hb. cbv beta iota zeta in Ha, Hb.
  rewrite (array_sort_by_key _ due_key) in Ha, Hb
    by by apply dueDate_lt_by_key, filterTodos_Forall.
  pose proof (key_sort_lookup_le _ _ _ _ _ _ Hij Ha Hb) as Hle.
  apply key_sort_lookup_elem, filterTodos_elem in Ha, Hb.
  rewrite Forall_forall in H. pose proof (H a Ha) as Hva. pose proof (H b Hb) as Hvb.
  unfold due_key in Hle. rewrite Htb in Hle.
  destruct (date_value b.["dueDate"]) as [y|] eqn:Eb; [|by exfalso; apply Hvb].
  apply date_value_bound in Eb as Hyb.
  destruct (truthy a.["dueDate"]); [|lia].
  destruct (date_value a.["dueDate"]) as [x|]; [|by exfalso; apply Hva].
  split; [done|]. by exists x, y.
Qed.


(** C3: in the "priority" view the ranks do not
    increase along the list (high before medium before low before
    unknown). *)
Theorem priority_view_order todos filter i j a b :
  Forall (λ t, priority_rank t.["priority"] ≠ NaN) todos →
  (i < j)%nat →
  getFilteredTodos todos filter "priority" !! i = Some a →
  getFilteredTodos todos filter "priority" !! j = Some b →
  ∃ x y, priority_rank a.["priority"] = Fin x ∧ priority_rank b.["priority"] = Fin y ∧ y ≤ x.
Proof.
  intros H Hij Ha Hb.
  unfold getFilteredTodos, sortTodos in Ha, Hb. cbv beta iota zeta in Ha, Hb.
  rewrite (array_sort_by_key _ rank_key) in Ha, Hb
    by by apply priority_lt_by_key, filterTodos_Forall.
  pose proof (key_sort_lookup_le _ _ _ _ _ _ Hij Ha Hb) as Hle.
  apply key_sort_lookup_elem, filterTodos_elem in Ha, Hb.
  rewrite Forall_forall in H. pose proof (H a Ha) as Hva. pose proof (H b Hb) as Hvb.
  unfold rank_key in Hle.
  destruct (priority_rank a.["priority"]) as [x|]; [|done].
  destruct (priority_rank b.["priority"]) as [y|]; [|done].
  exists x, y. split_and!; [done|done|lia].
Qed.

End WithSort.

Lemma completed_view_only_completed_witness :
Forall (λ t, t.["completed"] = VBool true)
  (getFilteredTodos [[("completed", VBool true)]; [("completed", VBool false)]]
     "completed" "priority").
Proof. apply completed_view_only_completed. Defined.

Lemma priority_view_refines_key_sort_witness :
  let l := [[("priority", VStr "low")]; [("title", VStr "x")]; [("priority", VStr "high")]] in
  getFilteredTodos l "all" "priority" = key_sort rank_key (filterTodos l "all").
Proof.
  apply priority_view_refines_key_sort. repeat constructor; vm_compute; congruence.
Defined.

Lemma dueDate_view_refines_key_sort_witness :
  let l := [[("dueDate", VStr "2024-05-01")]; [("dueDate", VStr "")];
            [("dueDate", VStr "2024-03-01")]] in
  getFilteredTodos l "all" "dueDate" = key_sort due_key (filterTodos l "all").
Proof.
  apply dueDate_view_refines_key_sort. repeat constructor; vm_compute; congruence.
Defined.

Lemma created_view_refines_key_sort_witness :
  let l := [[("createdAt", VNum (Fin 1))]; [("createdAt", VNum (Fin 3))]] in
  getFilteredTodos l "completed" "created" = key_sort created_key (filterTodos l "completed").
Proof.
  apply created_view_refines_key_sort; [done|done|].
  repeat constructor; vm_compute; congruence.
Defined.

Lemma dueDate_view_order_witness :
  truthy [("dueDate", VStr "2024-03-01")].["dueDate"] = true ∧
  ∃ x y, date_value [("dueDate", VStr "2024-03-01")].["dueDate"] = Fin x ∧
         date_value [("dueDate", VStr "2024-05-01")].["dueDate"] = Fin y ∧ x ≤ y.
Proof.
  apply (dueDate_view_order
    [[("dueDate", VStr "2024-05-01")]; [("dueDate", VStr "")];
     [("dueDate", VStr "2024-03-01")]] "all" 0 1); try reflexivity.
  - repeat constructor; vm_compute; congruence.
  - lia.
Defined.

Lemma priority_view_order_witness :
  ∃ x y, priority_rank [("priority", VStr "high")].["priority"] = Fin x ∧
         priority_rank [("priority", VStr "low")].["priority"] = Fin y ∧ y ≤ x.
Proof.
  apply (priority_view_order
    [[("priority", VStr "low")]; [("priority", VStr "high")]] "all" 0 1);
    try reflexivity.
  - repeat constructor; vm_compute; congruence.
  - lia.
Defined.

(** C14: the filter select offers "all",
    "pending" and "completed", so in every reachable state the branch
    testing [filter === "false"] is never taken: "pending" shows every
    record, the completed ones included. *)
Theorem reachable_filter_never_pending u todos :
  ui_reachable u →
  filterTodos todos (filter u) =
    if String.eqb (filter u) "completed"
    then List.filter (λ t, t.["completed"] === VBool true) todos
    else todos.
Proof.
  intros [Hf _]%ui_reachable_options. unfold filter_options in Hf.
  repeat (apply elem_of_cons in Hf as [Hf|Hf]; [by rewrite Hf|]). set_solver.
Qed.

Lemma reachable_filter_never_pending_witness :
  filterTodos [[("completed", VBool true)]]
    (filter (ui_handle ui_init (SelectFilter "pending"))) =
  if String.eqb (filter (ui_handle ui_init (SelectFilter "pending"))) "completed"
  then List.filter (λ t, t.["completed"] === VBool true) [[("completed", VBool true)]]
  else [[("completed", VBool true)]].
Proof.
  apply reachable_filter_never_pending. apply ui_reach_step; [apply ui_reach_init|].
  by apply (bool_decide_unpack _); vm_compute.
Defined.

(** C16: two records without a due date
    both compare as greater than each other, so the comparator is not
    consistent in ECMAScript's sense and the relative order of such
    records is left to the engine. *)
Theorem dueDate_cmp_not_antisymmetric l a b :
  a ∈ l → b ∈ l → truthy a.["dueDate"] = false → truthy b.["dueDate"] = false →
  ¬ antisymmetric_on dueDate_cmp l.
Proof.
  intros Ha Hb Hta Htb Hanti. specialize (Hanti a b Ha Hb).
  unfold sort_compare, dueDate_cmp in Hanti. rewrite Hta, Htb in Hanti. done.
Qed.

Lemma dueDate_cmp_not_antisymmetric_witness :
  ¬ antisymmetric_on dueDate_cmp [[("dueDate", VStr "")]; [("title", VStr "x")]].
Proof.
  apply (dueDate_cmp_not_antisymmetric _ [("dueDate", VStr "")] [("title", VStr "x")]);
    try reflexivity; by apply (bool_decide_unpack _); vm_compute.
Defined.

(** C17: a record without [createdAt] (as the seeded
    ones are) between two records with different creation times leaves
    the "created" comparator without any key order: no stable sort by
    a key describes the view, and the result is up to the engine. *)
Theorem created_cmp_no_key a b c x y :
  to_number a.["createdAt"] = Fin x → to_number b.["createdAt"] = NaN →
  to_number c.["createdAt"] = Fin y → x ≠ y →
  ¬ ∃ k, lt_by_key created_cmp k [a; b; c].
Proof.
  intros Ha Hb Hc Hxy [k Hk].
  assert (Hab := Hk a b). assert (Hba := Hk b a).
  assert (Hbc := Hk b c). assert (Hcb := Hk c b).
  assert (Hac := Hk a c). assert (Hca := Hk c a).
  unfold sort_compare, created_cmp in *. rewrite Ha, Hb, Hc in *. simpl in *.
  assert (k a = k b) by (destruct (Hab ltac:(set_solver) ltac:(set_solver)),
    (Hba ltac:(set_solver) ltac:(set_solver)); lia).
  assert (k b = k c) by (destruct (Hbc ltac:(set_solver) ltac:(set_solver)),
    (Hcb ltac:(set_solver) ltac:(set_solver)); lia).
  destruct (Hac ltac:(set_solver) ltac:(set_solver)),
    (Hca ltac:(set_solver) ltac:(set_solver)). lia.
Qed.

Lemma created_cmp_no_key_witness :
  ¬ ∃ k, lt_by_key created_cmp k
    [[("createdAt", VNum (Fin 5))];
     [("userId", VNum (Fin 1)); ("id", VNum (Fin 1));
      ("title", VStr "delectus aut autem"); ("completed", VBool false)];
     [("createdAt", VNum (Fin 10))]].
Proof. apply (created_cmp_no_key _ _ _ 5 10); try reflexivity. lia. Defined.

End TodoList.
