(* ===== verification/DueDate.v ===== *)
(** * The due-date order against the calendar

    The spec sorts the "dueDate" view ascending by due date.  The code
    compares [new Date(a.dueDate) - new Date(b.dueDate)] (TodoList.js
    line 24), time values computed by MakeDay ([days_from_civil]).  This
    file relates the two: on the "YYYY-MM-DD" texts of real calendar
    dates (what [<input type="date">] produces), the comparator answers
    a negative number exactly when the first date comes earlier in the
    calendar.  A day past the end of its month is not a calendar date;
    V8 carries it into the next month, and so does the model.

    The calendar here ([leap], [days_in_month], [valid_date],
    [date_lt]) and the printer [iso_date] are the reference, not code of
    the repository. *)

From S2P Require Import Prelude JsValue JsArray JsDate Projector.

(** ** The proleptic Gregorian calendar *)

Definition leap (y : Z) : Z :=
  if (y mod 4 =? 0) && (negb (y mod 100 =? 0) || (y mod 400 =? 0)) then 1 else 0.

Definition days_in_month (y m : Z) : Z :=
  if m =? 2 then 28 + leap y
  else if (m =? 4) || (m =? 6) || (m =? 9) || (m =? 11) then 30
  else 31.

(** Days of the year before the first of month [m]. *)
Definition days_before (y m : Z) : Z :=
  nth (Z.to_nat (m - 1)) [0; 31; 59; 90; 120; 151; 181; 212; 243; 273; 304; 334] 0
  + (if 3 <=? m then leap y else 0).

(** The years an [<input type="date">] writes with four digits. *)
Definition valid_date (y m d : Z) : Prop :=
  0 ≤ y ≤ 9999 ∧ 1 ≤ m ≤ 12 ∧ 1 ≤ d ≤ days_in_month y m.

Definition date_lt (y m d y' m' d' : Z) : Prop :=
  y < y' ∨ (y = y' ∧ (m < m' ∨ (m = m' ∧ d < d'))).

(** ** The text of a date: "YYYY-MM-DD" *)

Definition digit_char (n : Z) : ascii := Ascii.ascii_of_nat (48 + Z.to_nat n).

Definition iso_date (y m d : Z) : string :=
  String (digit_char (y / 1000)) (String (digit_char (y / 100 mod 10))
  (String (digit_char (y / 10 mod 10)) (String (digit_char (y mod 10))
  (String "-" (String (digit_char (m / 10)) (String (digit_char (m mod 10))
  (String "-" (String (digit_char (d / 10)) (String (digit_char (d mod 10))
  EmptyString))))))))).

(** ** MakeDay on calendar dates *)

(** The three tests of the leap-year rule, each decided, with the
    divisions of MakeDay turned into equations for [lia]. *)
Ltac calendar_lia y :=
  unfold leap in *;
  destruct (y mod 4 =? 0) eqn:?, (y mod 100 =? 0) eqn:?, (y mod 400 =? 0) eqn:?;
  simpl in *; rewrite ?Z.eqb_eq, ?Z.eqb_neq in *; Z.div_mod_to_equations; lia.

Lemma leap_range y : 0 ≤ leap y ≤ 1.
Proof. unfold leap. case_match; lia. Qed.

Lemma month_cases m : 1 ≤ m ≤ 12 →
  m = 1 ∨ m = 2 ∨ m = 3 ∨ m = 4 ∨ m = 5 ∨ m = 6 ∨ m = 7 ∨ m = 8 ∨ m = 9 ∨ m = 10 ∨ m = 11 ∨ m = 12.
Proof. lia. Qed.

(** One goal per month of the year. *)
Ltac month_split m Hm :=
  let Hc := fresh "Hc" in
  pose proof (month_cases m Hm) as Hc; destruct_or! Hc; subst m.

(** The day number of a date is that of the first of January plus the
    days of the months before and the day of the month. *)
Lemma days_from_civil_offset y m d :
  1 ≤ m ≤ 12 → days_from_civil y m d = days_from_civil y 1 1 + days_before y m + d - 1.
Proof.
  intros Hm. unfold days_from_civil, days_before.
  month_split m Hm;
    calendar_lia y.
Qed.

Lemma days_from_civil_next_year y :
  days_from_civil (y + 1) 1 1 = days_from_civil y 1 1 + 365 + leap y.
Proof.
  unfold days_from_civil. simpl. replace (y + 1 - 1) with y by lia. calendar_lia y.
Qed.

Lemma year_start_mono y y' :
  y < y' → days_from_civil y 1 1 + 365 + leap y ≤ days_from_civil y' 1 1.
Proof.
  intros Hlt. replace y' with (y + 1 + Z.of_nat (Z.to_nat (y' - y - 1))) by lia.
  induction (Z.to_nat (y' - y - 1)) as [|n IH].
  - replace (y + 1 + Z.of_nat 0) with (y + 1) by lia. rewrite days_from_civil_next_year. lia.
  - replace (y + 1 + Z.of_nat (S n)) with (y + 1 + Z.of_nat n + 1) by lia.
    rewrite days_from_civil_next_year. pose proof (leap_range (y + 1 + Z.of_nat n)). lia.
Qed.

Lemma days_before_range y m d :
  valid_date y m d → 0 ≤ days_before y m ∧ days_before y m + d ≤ 365 + leap y.
Proof.
  intros (_ & Hm & Hd). pose proof (leap_range y). unfold days_in_month, days_before in *.
  month_split m Hm;
    simpl in *; lia.
Qed.

Lemma days_before_mono y m d m' d' :
  valid_date y m d → valid_date y m' d' → m < m' →
  days_before y m + d < days_before y m' + d'.
Proof.
  intros (_ & Hm & Hd) (_ & Hm' & Hd') Hlt. pose proof (leap_range y).
  unfold days_in_month, days_before in *.
  month_split m Hm;
  month_split m' Hm';
    simpl in *; lia.
Qed.

Lemma days_lt_of_date_lt y m d y' m' d' :
  valid_date y m d → valid_date y' m' d' → date_lt y m d y' m' d' →
  days_from_civil y m d < days_from_civil y' m' d'.
Proof.
  intros Hv Hv' Hlt.
  rewrite (days_from_civil_offset y), (days_from_civil_offset y') by apply Hv || apply Hv'.
  pose proof (days_before_range _ _ _ Hv). pose proof (days_before_range _ _ _ Hv').
  destruct Hlt as [Hy|(<- & [Hm|(<- & Hd)])].
  - pose proof (year_start_mono y y' Hy). destruct Hv' as (_ & _ & ?). lia.
  - pose proof (days_before_mono _ _ _ _ _ Hv Hv' Hm). lia.
  - lia.
Qed.

(** Between calendar dates, MakeDay's order is the calendar's. *)
Lemma days_lt_iff y m d y' m' d' :
  valid_date y m d → valid_date y' m' d' →
  days_from_civil y m d < days_from_civil y' m' d' ↔ date_lt y m d y' m' d'.
Proof.
  intros Hv Hv'. split; [|by apply days_lt_of_date_lt].
  intros Hlt. destruct (decide (date_lt y m d y' m' d')) as [|Hn]; [done|].
  exfalso. assert (date_lt y' m' d' y m d ∨ (y = y' ∧ m = m' ∧ d = d')) as [Hr|(-> & -> & ->)]
    by (unfold date_lt in *; lia).
  - pose proof (days_lt_of_date_lt _ _ _ _ _ _ Hv' Hv Hr). lia.
  - lia.
Qed.

(** ** Parsing the text of a calendar date *)

Lemma digit_digit_char n : 0 ≤ n < 10 → digit (digit_char n) = Some n.
Proof.
  intros Hn. assert (n = 0 ∨ n = 1 ∨ n = 2 ∨ n = 3 ∨ n = 4 ∨ n = 5 ∨ n = 6 ∨ n = 7 ∨ n = 8 ∨ n = 9)
    as Hc by lia.
  destruct_or! Hc; subst n; reflexivity.
Qed.

Lemma digits2_chars a b :
  0 ≤ a < 10 → 0 ≤ b < 10 → digits2 (digit_char a) (digit_char b) = Some (a * 10 + b).
Proof. intros. unfold digits2. by rewrite !digit_digit_char. Qed.

Lemma days_in_month_le y m : days_in_month y m ≤ 31.
Proof. pose proof (leap_range y). unfold days_in_month. repeat case_match; lia. Qed.

Lemma parse_iso_date_iso y m d :
  valid_date y m d → parse_iso_date (iso_date y m d) = Fin (make_date y m d).
Proof.
  intros (Hy & Hm & Hd). pose proof (days_in_month_le y m).
  unfold parse_iso_date, iso_date.
  repeat (rewrite digits2_chars by (Z.div_mod_to_equations; lia); cbv iota beta zeta).
  replace (m / 10 * 10 + m mod 10) with m by (Z.div_mod_to_equations; lia).
  replace ((1 <=? m) && (m <=? 12)) with true by (symmetry; apply andb_true_intro; lia).
  replace (d / 10 * 10 + d mod 10) with d by (Z.div_mod_to_equations; lia).
  replace ((1 <=? d) && (d <=? 31)) with true by (symmetry; apply andb_true_intro; lia).
  do 2 f_equal. Z.div_mod_to_equations. lia.
Qed.

(** Four-digit years stay well inside TimeClip's range. *)
Lemma make_date_clip y m d :
  valid_date y m d → time_clip (Fin (make_date y m d)) = Fin (make_date y m d).
Proof.
  intros Hv. pose proof (days_before_range _ _ _ Hv). pose proof (leap_range y).
  destruct Hv as (Hy & Hm & Hd).
  unfold time_clip. rewrite (proj2 (Z.leb_le _ _)); [done|].
  unfold make_date, ms_per_day. rewrite days_from_civil_offset by done.
  unfold days_from_civil. simpl. Z.div_mod_to_equations. lia.
Qed.

Lemma date_value_iso y m d :
  valid_date y m d → date_value (VStr (iso_date y m d)) = Fin (make_date y m d).
Proof. intros Hv. unfold date_value. by rewrite parse_iso_date_iso, make_date_clip. Qed.

(** ** Theorems *)

(** C29: On the "YYYY-MM-DD" texts of two calendar dates, the due-date
    comparator of [sortTodos] answers a negative number exactly when
    the first date comes earlier in the calendar: the "dueDate" view is
    ascending by calendar date, as the spec asks. *)
Theorem dueDate_cmp_calendar a b y m d y' m' d' :
  valid_date y m d → valid_date y' m' d' →
  a.["dueDate"] = VStr (iso_date y m d) → b.["dueDate"] = VStr (iso_date y' m' d') →
  (sort_compare TodoList.dueDate_cmp a b < 0 ↔ date_lt y m d y' m' d').
Proof.
  intros Hv Hv' Ha Hb. rewrite <- days_lt_iff by done.
  unfold sort_compare, TodoList.dueDate_cmp. rewrite Ha, Hb. simpl negb.
  rewrite !date_value_iso by done. simpl. unfold make_date, ms_per_day. lia.
Qed.

Lemma dueDate_cmp_calendar_witness :
  sort_compare TodoList.dueDate_cmp [("dueDate", VStr (iso_date 2024 2 29))]
    [("dueDate", VStr (iso_date 2024 3 1))] < 0 ↔ date_lt 2024 2 29 2024 3 1.
Proof.
  apply dueDate_cmp_calendar; try reflexivity; unfold valid_date; vm_compute; intuition discriminate.
Defined.
