(* ===== verification/JsTimSort.v ===== *)
(** * V8's TimSort on short arrays

    V8 sorts with TimSort (third_party/v8/builtins/array-sort.tq,
    [ArrayTimSortImpl]).  For an array of fewer than 64 elements the
    minimum run length is the whole length, so the sort is one call of
    [CountAndMakeRun] followed by one [BinaryInsertionSort]:

    - [CountAndMakeRun(low, high)] measures the run at the start of the
      array: strictly descending ([order < 0] between each element and
      the previous one), then reversed in place, or non-descending
      ([order >= 0]);
    - [BinaryInsertionSort(low, start, high)] inserts each element
      [a[start]] after the run into the sorted prefix [a[low..start)],
      at the place a binary search finds: [left = low; right = start;
      while (left < right) { mid = left + ((right - left) >> 1);
      order = Compare(pivot, a[mid]); if (order < 0) right = mid; else
      left = mid + 1; }], the elements from [left] on shifting by one.

    [Compare] is SortCompare ([sort_compare]).  The array is a list
    here; the in-place shifts become [take]/[drop] around the inserted
    element.  The search loop recurses on [right - left], which is not
    structural, so it is defined with Equations by well-founded
    recursion.  Longer arrays (runs of the minimum length merged with
    galloping) are not modelled: [v8_sort] sorts them with the same
    run-and-insert steps, which is not what V8 does for them. *)

From Equations Require Import Equations.
From S2P Require Import Prelude JsValue JsArray.

Section V8Sort.
Context {A : Type} (cmp : A → A → num).

(** The binary search of [BinaryInsertionSort], with V8's [left] and
    [right] as [lo] and [hi]: the first index of [a[lo..hi)] whose
    element the pivot compares below. *)
Equations? bsearch (pivot : A) (a : list A) (lo hi : nat) : nat
  by wf (hi - lo)%nat lt :=
  bsearch pivot a lo hi with lt_dec lo hi => {
    | left _ =>
        let mid := (lo + Nat.shiftr (hi - lo) 1)%nat in
        match a !! mid with
        | Some y =>
            if sort_compare cmp pivot y <? 0 then bsearch pivot a lo mid
            else bsearch pivot a (S mid) hi
        | None => lo
        end;
    | right _ => lo }.
Proof.
  all: subst mid; rewrite Nat.shiftr_div_pow2; simpl Nat.pow.
  - pose proof (Nat.div_lt (hi - lo) 2). lia.
  - lia.
Qed.

(** One step of [BinaryInsertionSort]: [pivot] goes into the sorted
    prefix [a] at the index the search returns. *)
Definition bin_insert (pivot : A) (a : list A) : list A :=
  let p := bsearch pivot a 0 (List.length a) in
  take p a ++ pivot :: drop p a.

(** The length of the run after its first two elements. *)
Fixpoint desc_run (prev : A) (l : list A) : nat :=
  match l with
  | x :: l' => if sort_compare cmp x prev <? 0 then S (desc_run x l') else 0
  | [] => 0
  end.

Fixpoint asc_run (prev : A) (l : list A) : nat :=
  match l with
  | x :: l' => if sort_compare cmp x prev <? 0 then 0 else S (asc_run x l')
  | [] => 0
  end.

(** [CountAndMakeRun(0, n)]: the length of the leading run and the run,
    reversed when it descends. *)
Definition count_and_make_run (x0 x1 : A) (rest : list A) : nat * list A :=
  let l := x0 :: x1 :: rest in
  if sort_compare cmp x1 x0 <? 0 then
    let n := (2 + desc_run x1 rest)%nat in (n, rev (take n l))
  else
    let n := (2 + asc_run x1 rest)%nat in (n, take n l).

(** [ArrayTimSortImpl] on an array of fewer than 64 elements. *)
Definition v8_sort (l : list A) : list A :=
  match l with
  | x0 :: x1 :: rest =>
      let '(n, run) := count_and_make_run x0 x1 rest in
      fold_left (λ a x, bin_insert x a) (drop n l) run
  | _ => l
  end.
End V8Sort.

#[export] Instance v8_sort_impl : ArraySort := @v8_sort.

(** The number of leading elements of [a] whose key is at most the key
    of [x]: where [key_insert] puts [x]. *)
Fixpoint n_le {A} (k : A → Z) (x : A) (a : list A) : nat :=
  match a with
  | [] => 0
  | y :: a' => if k x <? k y then 0 else S (n_le k x a')
  end.

(** ** The search and the insertion against the key *)

Section SearchKey.
Context {A : Type} (k : A → Z).

Lemma key_insert_split x a : key_insert k x a = take (n_le k x a) a ++ x :: drop (n_le k x a) a.
Proof. induction a as [|y a IH]; simpl; [done|]. destruct (k x <? k y); simpl; congruence. Qed.

Lemma n_le_length x a : (n_le k x a ≤ List.length a)%nat.
Proof. induction a as [|y a IH]; simpl; [lia|]. destruct (k x <? k y); simpl; lia. Qed.

Lemma n_le_lookup_lt x a i y : a !! i = Some y → (i < n_le k x a)%nat → k y ≤ k x.
Proof.
  revert i. induction a as [|z a IH]; intros i Hi Hlt; simpl in *; [done|].
  destruct (k x <? k z) eqn:E; [lia|]. apply Z.ltb_ge in E.
  destruct i as [|i]; simpl in Hi; [by injection Hi as ->|]. apply (IH i); [done|lia].
Qed.

Lemma n_le_lookup_ge x a i y :
  Sorted (key_le k) a → a !! i = Some y → (n_le k x a ≤ i)%nat → k x < k y.
Proof.
  intros Hs. revert i. induction Hs as [|z a Hs IH Hhd]; intros i Hi Hge; simpl in *; [done|].
  destruct (k x <? k z) eqn:E.
  - apply Z.ltb_lt in E.
    enough (k z ≤ k y) by lia. apply (Sorted_key_le_head k z a); [by constructor|].
    by apply list_elem_of_lookup_2 in Hi.
  - destruct i as [|i]; [lia|]. simpl in Hi. apply (IH i); [done|lia].
Qed.
End SearchKey.

Section SearchCmp.
Context {A : Type} (cmp : A → A → num) (k : A → Z) (L : list A) (Hkey : lt_by_key cmp k L).

Lemma bsearch_mid lo hi : (lo < hi)%nat → (lo ≤ lo + Nat.shiftr (hi - lo) 1 < hi)%nat.
Proof.
  intros H. rewrite Nat.shiftr_div_pow2. simpl Nat.pow.
  pose proof (Nat.div_lt (hi - lo) 2). lia.
Qed.

(** On a prefix sorted by key, the search finds where [key_insert] puts
    the pivot, as long as that place lies between its bounds. *)
Lemma bsearch_n_le x a lo hi :
  x ∈ L → (∀ y, y ∈ a → y ∈ L) → Sorted (key_le k) a →
  (lo ≤ n_le k x a ≤ hi)%nat → (hi ≤ List.length a)%nat →
  bsearch cmp x a lo hi = n_le k x a.
Proof.
  funelim (bsearch cmp x a lo hi); intros Hx HaL Hs Hb Hhi; [|lia].
  pose proof (bsearch_mid lo hi l) as Hmid.
  set (mid := (lo + Nat.shiftr (hi - lo) 1)%nat) in *.
  destruct (a !! mid) as [y|] eqn:Hy; [|apply lookup_ge_None in Hy; lia].
  assert (y ∈ L) by (apply HaL; by apply list_elem_of_lookup_2 in Hy).
  destruct (sort_compare cmp pivot y <? 0) eqn:Hc.
  - apply Z.ltb_lt, Hkey in Hc; [|done|done]. apply (H y); try done; [|lia].
    split; [lia|]. destruct (decide (mid < n_le k pivot a)%nat) as [Hlt|]; [|lia].
    pose proof (n_le_lookup_lt k pivot a mid y Hy Hlt). lia.
  - apply Z.ltb_ge in Hc.
    assert (¬ k pivot < k y) by (rewrite <- (Hkey pivot y) by done; lia).
    apply (H0 y); try done. split; [|lia].
    destruct (decide (n_le k pivot a ≤ mid)%nat) as [Hge|]; [|lia].
    pose proof (n_le_lookup_ge k pivot a mid y Hs Hy Hge). lia.
Qed.

Lemma bin_insert_key x a :
  x ∈ L → (∀ y, y ∈ a → y ∈ L) → Sorted (key_le k) a →
  bin_insert cmp x a = key_insert k x a.
Proof.
  intros Hx HaL Hs. unfold bin_insert. rewrite key_insert_split.
  rewrite (bsearch_n_le x a); [done|done|done|done| |done].
  pose proof (n_le_length k x a). lia.
Qed.
End SearchCmp.

(** ** The leading run is already the stable sort of its elements *)

Section Runs.
Context {A : Type} (k : A → Z).

Lemma Sorted_snoc (m : list A) x :
  Sorted (key_le k) m → (∀ w, w ∈ m → k w ≤ k x) → Sorted (key_le k) (m ++ [x]).
Proof.
  induction 1 as [|y m Hs IH Hhd]; intros Hle; simpl; [by repeat constructor|].
  constructor; [apply IH; set_solver|]. destruct Hhd as [|z m' Hyz]; simpl.
  - constructor. apply Hle. set_solver.
  - by constructor.
Qed.

(** A strictly descending list, reversed, is sorted by key. *)
Lemma desc_rev_sorted (l : list A) :
  StronglySorted (λ x y, k y < k x) l → Sorted (key_le k) (rev l).
Proof.
  induction 1 as [|x l Hs IH Hall]; simpl; [constructor|].
  apply Sorted_snoc; [done|]. intros w Hw.
  apply list_elem_of_In, in_rev, list_elem_of_In in Hw.
  eapply Forall_forall in Hall; [|exact Hw]. unfold key_le. simpl in Hall. lia.
Qed.

(** In a strictly descending list each key occurs at most once, so
    reversing it keeps the order of the elements of each key. *)
Lemma desc_rev_stable (l : list A) :
  StronglySorted (λ x y, k y < k x) l → stable_wrt k (rev l) l.
Proof.
  intros Hs z. rewrite List.filter_rev.
  enough (List.length (List.filter (same_key k z) l) ≤ 1)%nat as Hle.
  { destruct (List.filter _ l) as [|a [|b m]]; simpl in *; [done|done|lia]. }
  induction Hs as [|x l Hs IH Hall]; simpl; [lia|].
  destruct (same_key k z x) eqn:Hx; simpl; [|done].
  rewrite filter_same_key_nil; [simpl; lia|]. intros w Hw.
  unfold same_key in Hx. apply Z.eqb_eq in Hx.
  eapply Forall_forall in Hall; [|exact Hw]. simpl in Hall. lia.
Qed.

Lemma key_sort_of_sorted (l : list A) : Sorted (key_le k) l → key_sort k l = l.
Proof. intros Hs. symmetry. by apply key_sort_unique. Qed.

Lemma key_sort_of_desc (l : list A) :
  StronglySorted (λ x y, k y < k x) l → key_sort k l = rev l.
Proof.
  intros Hs. symmetry. apply key_sort_unique; [by apply desc_rev_sorted|].
  by apply desc_rev_stable.
Qed.
End Runs.

(** ** [v8_sort] meets the contract of [Array.prototype.sort] *)

Section V8Perm.
Context {A : Type} (cmp : A → A → num).

Lemma bin_insert_perm x a : Permutation (bin_insert cmp x a) (x :: a).
Proof. unfold bin_insert. by rewrite <- Permutation_middle, take_drop. Qed.

Lemma fold_bin_insert_perm rest acc :
  Permutation (fold_left (λ a x, bin_insert cmp x a) rest acc) (acc ++ rest).
Proof.
  revert acc. induction rest as [|x rest IH]; intros acc; simpl; [by rewrite app_nil_r|].
  rewrite IH, bin_insert_perm. apply Permutation_middle.
Qed.

Lemma run_perm x0 x1 rest :
  let '(n, run) := count_and_make_run cmp x0 x1 rest in
  Permutation run (take n (x0 :: x1 :: rest)).
Proof.
  unfold count_and_make_run. destruct (sort_compare cmp x1 x0 <? 0); [|done].
  symmetry. apply Permutation_rev.
Qed.

(** For every comparator, consistent or not, the output is a
    permutation of the input. *)
Lemma v8_sort_perm (l : list A) : Permutation (v8_sort cmp l) l.
Proof.
  destruct l as [|x0 [|x1 rest]]; [done|done|]. unfold v8_sort.
  pose proof (run_perm x0 x1 rest) as Hrun.
  destruct (count_and_make_run cmp x0 x1 rest) as [n run].
  by rewrite fold_bin_insert_perm, Hrun, take_drop.
Qed.
End V8Perm.

Section V8Key.
Context {A : Type} (cmp : A → A → num) (k : A → Z) (L : list A) (Hkey : lt_by_key cmp k L).

Lemma asc_run_sorted prev l :
  prev ∈ L → (∀ y, y ∈ l → y ∈ L) →
  Sorted (key_le k) (prev :: take (asc_run cmp prev l) l).
Proof.
  revert prev. induction l as [|x l IH]; intros prev Hp Hl; simpl; [by repeat constructor|].
  assert (x ∈ L) by (apply Hl; left).
  destruct (sort_compare cmp x prev <? 0) eqn:Hc; simpl; [by repeat constructor|].
  apply Z.ltb_ge in Hc. assert (¬ k x < k prev) by (rewrite <- (Hkey x prev) by done; lia).
  constructor; [apply IH; [done|set_solver]|]. constructor. unfold key_le. lia.
Qed.

Lemma desc_run_sorted prev l :
  prev ∈ L → (∀ y, y ∈ l → y ∈ L) →
  Sorted (λ x y, k y < k x) (prev :: take (desc_run cmp prev l) l).
Proof.
  revert prev. induction l as [|x l IH]; intros prev Hp Hl; simpl; [by repeat constructor|].
  assert (x ∈ L) by (apply Hl; left).
  destruct (sort_compare cmp x prev <? 0) eqn:Hc; simpl; [|by repeat constructor].
  apply Z.ltb_lt, Hkey in Hc; [|done|done].
  constructor; [apply IH; [done|set_solver]|]. by constructor.
Qed.

(** [CountAndMakeRun] leaves the stable sort of the run's elements. *)
Lemma run_key_sort x0 x1 rest :
  (∀ y, y ∈ x0 :: x1 :: rest → y ∈ L) →
  let '(n, run) := count_and_make_run cmp x0 x1 rest in
  run = key_sort k (take n (x0 :: x1 :: rest)).
Proof.
  intros HL. assert (x0 ∈ L ∧ x1 ∈ L) as [H0 H1] by (split; apply HL; set_solver).
  assert (∀ y, y ∈ rest → y ∈ L) as Hr by (intros; apply HL; set_solver).
  unfold count_and_make_run. simpl take. destruct (sort_compare cmp x1 x0 <? 0) eqn:Hc.
  - apply Z.ltb_lt, Hkey in Hc; [|done|done]. symmetry. apply key_sort_of_desc.
    apply Sorted_StronglySorted; [intros a b c; lia|].
    constructor; [by apply desc_run_sorted|by constructor].
  - apply Z.ltb_ge in Hc. assert (¬ k x1 < k x0) by (rewrite <- (Hkey x1 x0) by done; lia).
    symmetry. apply key_sort_of_sorted.
    constructor; [by apply asc_run_sorted|constructor; unfold key_le; lia].
Qed.

Lemma fold_bin_insert_key rest acc :
  (∀ y, y ∈ acc → y ∈ L) → (∀ y, y ∈ rest → y ∈ L) → Sorted (key_le k) acc →
  fold_left (λ a x, bin_insert cmp x a) rest acc =
  fold_left (λ a x, key_insert k x a) rest acc.
Proof.
  revert acc. induction rest as [|x rest IH]; intros acc Hacc Hrest Hs; simpl; [done|].
  assert (x ∈ L) by (apply Hrest; left).
  rewrite (bin_insert_key cmp k L Hkey) by done. apply IH.
  - intros y. rewrite key_insert_perm. intros [->|?]%elem_of_cons; auto.
  - intros y ?. apply Hrest. by right.
  - by apply key_insert_sorted.
Qed.

Lemma elem_of_take_L n (l : list A) y : y ∈ take n l → y ∈ l.
Proof. intros Hy. rewrite <- (take_drop n l). apply elem_of_app. by left. Qed.

Lemma elem_of_drop_L n (l : list A) y : y ∈ drop n l → y ∈ l.
Proof. intros Hy. rewrite <- (take_drop n l). apply elem_of_app. by right. Qed.

(** V8's short-array TimSort is the stable sort by the key. *)
Lemma v8_sort_key l : (∀ y, y ∈ l → y ∈ L) → v8_sort cmp l = key_sort k l.
Proof.
  intros HL. destruct l as [|x0 [|x1 rest]]; [done|done|]. unfold v8_sort.
  pose proof (run_key_sort x0 x1 rest HL) as Hrun.
  destruct (count_and_make_run cmp x0 x1 rest) as [n run]. subst run.
  rewrite fold_bin_insert_key.
  - unfold key_sort. by rewrite <- fold_left_app, take_drop.
  - intros y. rewrite key_sort_perm. intros ?%elem_of_take_L. by apply HL.
  - intros y ?%elem_of_drop_L. by apply HL.
  - apply key_sort_sorted.
Qed.
End V8Key.

(** [v8_sort] discharges the interface that [sortTodos]'s theorems are
    proved against. *)
Lemma v8_sort_meets_contract : ArraySortSpec v8_sort_impl.
Proof.
  split.
  - intros A cmp l. apply v8_sort_perm.
  - intros A cmp k l Hkey. by apply (v8_sort_key cmp k l Hkey).
Qed.
