(* ===== verification/App.v ===== *)
(** * The application: start-up, React's state updates and persistence

    [App] (src/src/App.js) holds three pieces of React state, [todos],
    [loading] and [error], and mirrors [todos] into [localStorage] under
    the key "todos".  The model is a step relation on [app], whose fields
    are these three states and the stored text:

    - [mount] is a fresh instance of [App] on a page load: the first
      render ([useState] initial values, lines 8-10), then the start-up
      effect [fetchTodos] (lines 12-39) up to its first [await], then the
      commit of the updates it made and the persistence effect (lines
      41-45).  A stored text that is truthy is parsed and adopted, and
      no request is made; otherwise the effect is suspended on [fetch].
    - [fetch_done] is the settling of that request: [response.json()],
      [data.slice(0, 5)], [setTodos], [localStorage.setItem], the [catch]
      that records the error and the [finally] that ends the loading.
    - [dispatch] is one user event: the handlers it calls (the [Store]
      handlers) read the list of the last render; [setTodos] with a
      value (add, toggle) replaces the queued list, [setTodos] with an
      updater (delete, update) maps the latest one; React applies the
      queue in order, re-renders and runs the persistence effect, which
      writes the list unless it is empty.  While [loading] is true the
      component renders only its loading message (line 78), so no
      handler can run.
    - a reload ([step_reload]) discards React state and mounts a new
      instance on the stored text.

    [err.message] is kept as its cause ([failure]); the engine's message
    texts are not modelled.

    [JSON.parse] (line 19) and [response.json()] (line 27) are
    [JSON_parse] (file JsonText): a text that is not JSON throws a
    SyntaxError, and [data.slice] (line 28) on a JSON value without a
    [slice] method (a number, a boolean, [null], an object) throws a
    TypeError; both are caught at line 32.  A JSON text whose value is
    not an array of flat records is adopted by the code without error
    (line 19), and so is a string or such an array as the seed (lines
    28-29): the list then holds a value the model does not represent,
    and [mount] and [fetch_done] return [None], the model saying
    nothing of what follows.  From a first visit this never happens on
    a reload, since the application only reads back what it wrote
    (lemma [reachable_reload]). *)

From S2P Require Import Prelude JsValue Json JsonText Store.

Module App.
Import Store.

(** What [setError(err.message)] records. *)
Inductive failure :=
| SyntaxError                 (* JSON.parse or response.json() rejected the text *)
| TypeError                   (* data.slice is not a function, or data is null *)
| FetchError (msg : string).  (* fetch rejected: the network request failed *)

Record app := mkApp {
  todos : list obj;
  loading : bool;
  error : option failure;
  storage : option string   (* localStorage.getItem("todos") *)
}.

(** How the request of line 24 settles. *)
Inductive fetch_result :=
| NetworkFailure (msg : string)
| Body (text : string).

(** [localStorage.getItem("todos")]: a string or [null]. *)
Definition get_item (st : option string) : value :=
  match st with Some s => VStr s | None => VNull end.

(** The persistence effect (lines 41-45), run after a commit in which
    [todos] changed. *)
Definition persist (todos : list obj) (st : option string) : option string :=
  if (0 <? List.length todos)%nat then Some (stringify todos) else st.

(** A new instance of [App] on stored text [st] (lines 8-22, then the
    commit and the persistence effect); [None] when the stored text is
    JSON of a value the model does not represent, which line 19 adopts. *)
Definition mount (st : option string) : option app :=
  if truthy (get_item st) then
    match st with
    | Some text =>
        match JSON_parse text with
        | Parsed l => Some (mkApp l false None (persist l st))
        | Throws => Some (mkApp [] false (Some SyntaxError) st)
        | ParsedOther _ => None
        end
    | None => Some (mkApp [] true None st)
    end
  else Some (mkApp [] true None st).

(** The JSON values with a [slice] method: arrays and strings. *)
Definition has_slice (k : json_kind) : bool :=
  match k with KArray | KString => true | _ => false end.

(** The rest of [fetchTodos] once [fetch] settles (lines 24-36); [None]
    when the response is JSON of an array or a string the model does not
    represent, which lines 28-31 adopt and store. *)
Definition fetch_done (r : fetch_result) (s : app) : option app :=
  match r with
  | NetworkFailure m => Some (mkApp (todos s) false (Some (FetchError m)) (storage s))
  | Body text =>
      match JSON_parse text with
      | Parsed data =>
          let initialTodos := firstn 5 data in
          Some (mkApp initialTodos false (error s)
                  (persist initialTodos (Some (stringify initialTodos))))
      | Throws => Some (mkApp (todos s) false (Some SyntaxError) (storage s))
      | ParsedOther k =>
          if has_slice k then None
          else Some (mkApp (todos s) false (Some TypeError) (storage s))
      end
  end.

(** A call of one of the handlers passed to the children. *)
Inductive call :=
| CallAdd (now_id now_created : Z) (todoData : obj)
| CallToggle (id : value)
| CallDelete (id : value)
| CallUpdate (id : value) (newData : obj).

(** The argument of [setTodos]. *)
Inductive update :=
| SetValue (l : list obj)
| Updater (f : list obj → list obj).

(** The update a handler queues; [rendered] is the [todos] its closure
    captured. *)
Definition call_update (rendered : list obj) (c : call) : update :=
  match c with
  | CallAdd n n' d => SetValue (addTodo n n' d rendered)
  | CallToggle id => SetValue (toggleTodo id rendered)
  | CallDelete id => Updater (deleteTodo id)
  | CallUpdate id nd => Updater (updateTodo id nd)
  end.

Definition apply_update (cur : list obj) (u : update) : list obj :=
  match u with SetValue l => l | Updater f => f cur end.

(** One user event.  Every handler builds a new array, so a non-empty
    batch always changes [todos] and the persistence effect runs. *)
Definition dispatch (calls : list call) (s : app) : app :=
  match calls with
  | [] => s
  | _ =>
      let todos' := fold_left apply_update (map (call_update (todos s)) calls) (todos s) in
      mkApp todos' (loading s) (error s) (persist todos' (storage s))
  end.

Inductive step : app → app → Prop :=
| step_fetch s r s' : loading s = true → fetch_done r s = Some s' → step s s'
| step_event s calls : loading s = false → step s (dispatch calls s)
| step_reload s s' : mount (storage s) = Some s' → step s s'.

(** The states of a browser that opened the application with nothing
    stored. *)
Inductive reachable : app → Prop :=
| reach_first_visit s : mount None = Some s → reachable s
| reach_step s s' : reachable s → step s s' → reachable s'.

(** The invariant: the records have distinct keys, the stored text was
    written by [JSON.stringify], a non-empty list is mirrored in the
    store, and a pending request means nothing was ever stored. *)
Definition app_inv (s : app) : Prop :=
  Forall wf_obj (todos s) ∧
  (storage s = None ∨ ∃ l, Forall wf_obj l ∧ storage s = Some (stringify l)) ∧
  (todos s ≠ [] → storage s = Some (stringify (todos s))) ∧
  (loading s = true → todos s = [] ∧ storage s = None).

(** A response of the seed source in the shape it serves: eight records
    with [userId], [id], [title] and [completed]. *)
Definition remote_record (k : Z) : obj :=
  [("userId", VNum (Fin 1)); ("id", VNum (Fin k));
   ("title", VStr "delectus aut autem"); ("completed", VBool false)].

Definition sample_remote : list obj := map remote_record [1; 2; 3; 4; 5; 6; 7; 8].

(** The first render: [useState([])], [useState(true)], [useState(null)],
    nothing stored. *)
Definition app_init : app := mkApp [] true None None.

(** The state after seeding from [sample_remote]. *)
Definition sample_seeded : app :=
  mkApp (firstn 5 sample_remote) false None (Some (stringify (firstn 5 sample_remote))).

(** ** The invariant *)

Definition storage_ok (st : option string) : Prop :=
  st = None ∨ ∃ l, Forall wf_obj l ∧ st = Some (stringify l).

Lemma Forall_map_impl {A B} (f : A → B) (P : A → Prop) (Q : B → Prop) (l : list A) :
  (∀ x, P x → Q (f x)) → Forall P l → Forall Q (map f l).
Proof. intros Hf. induction 1; simpl; constructor; auto. Qed.

Lemma persist_nonempty l st : l ≠ [] → persist l st = Some (stringify l).
Proof. unfold persist. destruct l; [done|]. done. Qed.

Lemma persist_ok l st :
  Forall wf_obj l → storage_ok st → storage_ok (persist l st).
Proof. unfold persist. intros Hl Hst. repeat case_match; try done; right; eauto. Qed.

Lemma newTodo_wf n n' d : wf_obj (newTodo n n' d).
Proof. unfold wf_obj. by apply (bool_decide_unpack _); vm_compute. Qed.

Lemma apply_call_wf rendered cur c :
  Forall wf_obj rendered → Forall wf_obj cur →
  Forall wf_obj (apply_update cur (call_update rendered c)).
Proof.
  intros Hr Hc. destruct c as [n n' d|id|id|id nd]; simpl.
  - apply Forall_app. split; [done|]. constructor; [apply newTodo_wf|constructor].
  - unfold toggleTodo. eapply Forall_map_impl; [|exact Hr].
    intros t Ht. repeat case_match; try done. apply wf_with_prop, wf_spread, wf_obj_nil.
  - by apply Forall_list_filter.
  - unfold updateTodo. eapply Forall_map_impl; [|exact Hc].
    intros t Ht. repeat case_match; try done. apply wf_spread, wf_spread, wf_obj_nil.
Qed.

Lemma fold_updates_wf rendered calls cur :
  Forall wf_obj rendered → Forall wf_obj cur →
  Forall wf_obj (fold_left apply_update (map (call_update rendered) calls) cur).
Proof.
  revert cur. induction calls as [|c calls IH]; intros cur Hr Hc; [done|].
  simpl. apply IH; [done|]. by apply apply_call_wf.
Qed.

Lemma inv_empty s : todos s = [] → storage s = None → app_inv s.
Proof. intros Ht Hs. unfold app_inv. rewrite Ht, Hs. repeat split; by auto. Qed.

Lemma loaded_inv t e st :
  Forall wf_obj t → storage_ok st → app_inv (mkApp t false e (persist t st)).
Proof.
  intros Ht Hst. unfold app_inv; simpl.
  split_and!; [done|by apply persist_ok|by apply persist_nonempty|done].
Qed.

Lemma mount_inv st s : storage_ok st → mount st = Some s → app_inv s.
Proof.
  intros Hst. unfold mount, get_item.
  destruct Hst as [->|(l0 & Hl0 & ->)]; [intros [= <-]; by apply inv_empty|].
  rewrite truthy_stringify. destruct (JSON_parse _) as [l|k|] eqn:Hp; intros [= <-].
  - apply loaded_inv; [by apply (JSON_parse_Parsed_wf _ _ Hp)|right; eauto].
  - unfold app_inv; simpl. split_and!; try done. right; eauto.
Qed.

Lemma fetch_done_inv s r s' :
  app_inv s → loading s = true → fetch_done r s = Some s' → app_inv s'.
Proof.
  intros (Hwf & Hst & Hm & Hl) Hload. destruct (Hl Hload) as [Ht Hs].
  destruct r as [m|text]; simpl; [intros [= <-]; by apply inv_empty|].
  destruct (JSON_parse text) as [data|k|] eqn:Hp; [|case_match|];
    intros [= <-]; try by apply inv_empty.
  apply JSON_parse_Parsed_wf in Hp.
  apply loaded_inv; [by apply Forall_take|right; eexists; split; [by apply Forall_take|done]].
Qed.

(** The [finally] of line 34: however the request settles, loading ends. *)
Lemma fetch_done_loading r s s' : fetch_done r s = Some s' → loading s' = false.
Proof. unfold fetch_done. intros H. repeat case_match; by simplify_eq. Qed.

Lemma dispatch_inv s calls : app_inv s → loading s = false → app_inv (dispatch calls s).
Proof.
  intros Hinv Hload. destruct calls as [|c calls]; [done|].
  destruct Hinv as (Hwf & Hst & Hm & Hl).
  unfold dispatch. cbv zeta.
  pose proof (fold_updates_wf (todos s) (c :: calls) (todos s) Hwf Hwf) as Hw.
  simpl in Hw |- *. split_and!; [done|by apply persist_ok|apply persist_nonempty|].
  intros H; simpl in H; congruence.
Qed.

Lemma reachable_inv s : reachable s → app_inv s.
Proof.
  induction 1 as [s Hm|s s' Hr IH Hs].
  - apply (mount_inv None); [by left|done].
  - destruct Hs as [s r s' Hl Hf|s calls Hl|s s' Hm].
    + by apply (fetch_done_inv s r).
    + by apply dispatch_inv.
    + apply (mount_inv (storage s)); [apply IH|done].
Qed.

(** A reload never leaves the model: what the application stores is
    [JSON.stringify] of a list of records, which [JSON.parse] reads back
    as such a list. *)
Lemma mount_storage_ok st : storage_ok st → ∃ s, mount st = Some s.
Proof.
  intros [->|(l & Hl & ->)]; [by eexists|].
  unfold mount, get_item. rewrite truthy_stringify, JSON_parse_stringify by done. by eexists.
Qed.

Lemma reachable_reload s : reachable s → ∃ s', step s s'.
Proof.
  intros Hr. destruct (mount_storage_ok (storage s)) as [s' Hm]; [apply (reachable_inv s Hr)|].
  exists s'. by apply step_reload.
Qed.

(** ** Theorems *)

Lemma mount_written l :
  Forall wf_obj l → l ≠ [] →
  mount (Some (stringify l)) = Some (mkApp (map normalize l) false None (Some (stringify l))).
Proof.
  intros Hwf Hne. unfold mount, get_item. rewrite truthy_stringify, JSON_parse_stringify by done.
  rewrite persist_nonempty, stringify_normalize; [done|]. by destruct l.
Qed.

(** C18: In every reachable state a non-empty task list is what
    [localStorage] holds: the stored text is [JSON.stringify(todos)]. *)
Theorem reachable_storage_mirror s :
  reachable s → todos s ≠ [] → storage s = Some (stringify (todos s)).
Proof. intros Hr. apply (reachable_inv s Hr). Qed.

(** C19: Reloading the page on a reachable state with tasks gives back
    the same tasks (up to JSON's normalisation), loaded, without error
    and without a request. *)
Theorem reload_restores_list s :
  reachable s → todos s ≠ [] →
  mount (storage s) = Some (mkApp (map normalize (todos s)) false None (storage s)).
Proof.
  intros Hr Hne. destruct (reachable_inv s Hr) as (Hwf & _ & Hm & _).
  rewrite (Hm Hne). by apply mount_written.
Qed.

(** C20: Deleting the last task empties the list but leaves it in
    [localStorage] (the persistence effect skips an empty list), so a
    reload brings the deleted task back. *)
Theorem delete_last_resurrects s t id :
  reachable s → loading s = false → todos s = [t] → matches id t = true →
  let s1 := dispatch [CallDelete id] s in
  todos s1 = [] ∧ storage s1 = storage s ∧
  mount (storage s1) = Some (mkApp [normalize t] false None (storage s1)).
Proof.
  intros Hr Hl Ht Hm. destruct (reachable_inv s Hr) as (Hwf & _ & Hmir & _).
  assert (Hd : deleteTodo id [t] = []) by (unfold deleteTodo; simpl; by rewrite Hm).
  assert (Hs : storage s = Some (stringify [t])) by (rewrite <- Ht; apply Hmir; by rewrite Ht).
  simpl. rewrite Ht, Hd. simpl. split_and!; [done|done|].
  change (persist [] (storage s)) with (storage s).
  rewrite Hs, mount_written; [done|by rewrite <- Ht|done].
Qed.

(** C21: On a first visit the application requests the seed; when the
    response is JSON of an array of records, the list is its first five
    records as served (no record is mapped to the task shape) and is
    written to [localStorage]. *)
Theorem seed_first_five text data :
  JSON_parse text = Parsed data →
  mount None = Some app_init ∧
  fetch_done (Body text) app_init =
    Some (mkApp (firstn 5 data) false None (Some (stringify (firstn 5 data)))).
Proof.
  intros Hp. split; [done|]. simpl. rewrite Hp. unfold persist. by destruct (0 <? _)%nat.
Qed.

(** C22: On a first visit every way the seed request fails is caught by
    the [catch] of line 32 and recorded: a network failure, a response
    that is not JSON (a SyntaxError from [response.json()]), and a JSON
    response whose value has no [slice] method -- a number, a boolean,
    [null] or an object -- (a TypeError from line 28).  Loading ends with
    no task and nothing stored, so a reload requests the seed again. *)
Theorem seed_failure_recorded m text text' k :
  JSON_parse text = Throws → JSON_parse text' = ParsedOther k → has_slice k = false →
  fetch_done (NetworkFailure m) app_init = Some (mkApp [] false (Some (FetchError m)) None) ∧
  fetch_done (Body text) app_init = Some (mkApp [] false (Some SyntaxError) None) ∧
  fetch_done (Body text') app_init = Some (mkApp [] false (Some TypeError) None) ∧
  mount None = Some app_init.
Proof. intros Hp Hp' Hk. simpl. by rewrite Hp, Hp', Hk. Qed.

(** C23: A stored text that is truthy but not JSON makes [JSON.parse]
    throw at line 19; the [catch] records the error, loading ends, no
    request is made and the text stays in [localStorage]. *)
Theorem stored_syntax_error_caught text :
  truthy (VStr text) = true → JSON_parse text = Throws →
  mount (Some text) = Some (mkApp [] false (Some SyntaxError) (Some text)).
Proof. intros Ht Hp. unfold mount, get_item. by rewrite Ht, Hp. Qed.

(** C24: Within one event the handlers that pass a value to [setTodos]
    (add, toggle) compute it from the rendered list and overwrite what
    was queued before them, while the updater handlers (delete, update)
    compose: of two adds only the second survives, two deletes both
    apply, and a delete queued before a toggle is lost. *)
Theorem batch_value_update_lost s a a' d b b' e i j :
  todos (dispatch [CallAdd a a' d; CallAdd b b' e] s) = addTodo b b' e (todos s) ∧
  todos (dispatch [CallDelete i; CallDelete j] s) = deleteTodo j (deleteTodo i (todos s)) ∧
  todos (dispatch [CallDelete j; CallToggle i] s) = toggleTodo i (todos s).
Proof. split_and!; reflexivity. Qed.

(** C25: While the application is loading, the list is empty and
    nothing is stored: the seed is requested only when no list was
    ever written. *)
Theorem fetch_only_first_visit s :
  reachable s → loading s = true → todos s = [] ∧ storage s = None.
Proof. intros Hr. apply (reachable_inv s Hr). Qed.

(** ** Witnesses: the seeded application and the states it leads to *)

Lemma seed_sample : fetch_done (Body (stringify sample_remote)) app_init = Some sample_seeded.
Proof. vm_compute. reflexivity. Qed.

Lemma reach_seeded : reachable sample_seeded.
Proof.
  apply (reach_step app_init); [by apply reach_first_visit|].
  eapply step_fetch; [done|apply seed_sample].
Qed.

Lemma reach_one_left :
  reachable (dispatch [CallDelete (VNum (Fin 1)); CallDelete (VNum (Fin 2));
                       CallDelete (VNum (Fin 3)); CallDelete (VNum (Fin 4))] sample_seeded).
Proof. eapply reach_step; [apply reach_seeded|]. by apply step_event. Qed.

Lemma reachable_storage_mirror_witness :
  storage sample_seeded = Some (stringify (todos sample_seeded)).
Proof. apply reachable_storage_mirror; [apply reach_seeded|by vm_compute]. Defined.

Lemma reload_restores_list_witness :
  mount (storage sample_seeded) =
    Some (mkApp (map normalize (todos sample_seeded)) false None (storage sample_seeded)).
Proof. apply reload_restores_list; [apply reach_seeded|by vm_compute]. Defined.

Lemma delete_last_resurrects_witness :
  let s := dispatch [CallDelete (VNum (Fin 1)); CallDelete (VNum (Fin 2));
                     CallDelete (VNum (Fin 3)); CallDelete (VNum (Fin 4))] sample_seeded in
  let s1 := dispatch [CallDelete (VNum (Fin 5))] s in
  todos s1 = [] ∧ storage s1 = storage s ∧
  mount (storage s1) = Some (mkApp [normalize (remote_record 5)] false None (storage s1)).
Proof.
  apply delete_last_resurrects; [apply reach_one_left|reflexivity|vm_compute; reflexivity|reflexivity].
Defined.

Lemma seed_first_five_witness :
  mount None = Some app_init ∧
  fetch_done (Body (stringify sample_remote)) app_init =
    Some (mkApp (firstn 5 sample_remote) false None (Some (stringify (firstn 5 sample_remote)))).
Proof. apply seed_first_five. vm_compute. reflexivity. Defined.

Lemma seed_failure_recorded_witness :
  fetch_done (NetworkFailure "Failed to fetch") app_init =
    Some (mkApp [] false (Some (FetchError "Failed to fetch")) None) ∧
  fetch_done (Body "<html>") app_init = Some (mkApp [] false (Some SyntaxError) None) ∧
  fetch_done (Body "{}") app_init = Some (mkApp [] false (Some TypeError) None) ∧
  mount None = Some app_init.
Proof. apply (seed_failure_recorded _ _ _ KObject); vm_compute; reflexivity. Defined.

Lemma stored_syntax_error_caught_witness :
  mount (Some "{") = Some (mkApp [] false (Some SyntaxError) (Some "{")).
Proof. apply stored_syntax_error_caught; vm_compute; reflexivity. Defined.

Lemma fetch_only_first_visit_witness : todos app_init = [] ∧ storage app_init = None.
Proof. apply fetch_only_first_visit; [by apply reach_first_visit|reflexivity]. Defined.

End App.
