(* ===== verification/View.v ===== *)
(** * What the components render

    [TodoList] (src/src/components/TodoList.js lines 46-101) renders a
    loading card when its [loading] prop is truthy; otherwise a header
    with the number of shown tasks and the two selectors, then either
    the empty state or one [TodoItem] per task of [getFilteredTodos()],
    keyed by [todo.id].  [App] (src/src/App.js lines 78-103) renders its
    loading message while [loading] is true; otherwise [TodoForm],
    [TodoList] (with [todos] and the three handlers, and no [loading]
    prop) and [TodoStats] (with [todos]).  The markup is reduced to
    what it shows: the count, the filter and sort selections, the keyed
    items and the lists handed to the children.  The handlers passed
    down are the calls of [App.call]. *)

From S2P Require Import Prelude JsValue JsArray Json JsonText Store Projector App.

Module View.
Import Store TodoList App.

(** The body of the list (lines 84-100): the empty state, or the
    [TodoItem]s with their React key [todo.id] and their record. *)
Inductive list_body :=
| EmptyState
| Items (items : list (value * obj)).

Inductive list_view :=
| ListLoading
| ListShown (count : nat) (filter sortBy : string) (body : list_body).

(** [TodoList] with props [todos] and [loading] and its local state [u]. *)
Definition todo_list_render `{ArraySort} (todos : list obj) (loading : value) (u : ui)
  : list_view :=
  if truthy loading then ListLoading
  else
    let filteredTodos := getFilteredTodos todos (TodoList.filter u) (sortBy u) in
    ListShown (List.length filteredTodos) (TodoList.filter u) (sortBy u)
      (if (List.length filteredTodos =? 0)%nat then EmptyState
       else Items (map (λ todo, (todo.["id"], todo)) filteredTodos)).

(** What [App] shows: the loading message, or the main area with the
    list and the tasks handed to [TodoStats]. *)
Inductive app_view :=
| AppLoading
| AppMain (shown : list_view) (stats : list obj).

(** [App]'s render; [TodoList] receives no [loading] prop, which reads
    as [undefined]. *)
Definition app_render `{ArraySort} (s : app) (u : ui) : app_view :=
  if loading s then AppLoading
  else AppMain (todo_list_render (todos s) VUndefined u) (todos s).

(** ** Theorems *)


Section WithSort.
Context {S : ArraySort} {HS : ArraySortSpec S}.


End WithSort.


(** C27: The recorded error is never rendered: [App]'s view does not
    depend on [error], so a failed seed request shows the same page as
    a seed that returned no task. *)
Theorem error_not_rendered `{ArraySort} s e u m :
  app_render (mkApp (todos s) (loading s) e (storage s)) u = app_render s u ∧
  ∃ s1 s2, fetch_done (NetworkFailure m) app_init = Some s1 ∧
    fetch_done (Body "[]") app_init = Some s2 ∧ app_render s1 u = app_render s2 u.
Proof. split; [reflexivity|]. eexists _, _. split_and!; reflexivity. Qed.

(** C28: Whatever state the application is in, the main area is at most
    one step away: either it is shown, or the application waits on the
    seed request and every way that request settles is a step to a
    state that shows it -- except a response that is JSON of an array
    or a string the model does not represent, which the code adopts. *)
Theorem main_view_within_one_step `{ArraySort} s u :
  (loading s = false ∧ app_render s u = AppMain (todo_list_render (todos s) VUndefined u) (todos s)) ∨
  (loading s = true ∧ ∀ r,
     (∃ s', fetch_done r s = Some s' ∧ step s s' ∧ ∃ lv st, app_render s' u = AppMain lv st) ∨
     (∃ text k, r = Body text ∧ JSON_parse text = ParsedOther k ∧ has_slice k = true)).
Proof.
  destruct (loading s) eqn:Hl.
  - right. split; [done|]. intros r. destruct (fetch_done r s) as [s'|] eqn:Hf.
    + left. exists s'. split_and!; [done|by eapply step_fetch|].
      unfold app_render. rewrite (fetch_done_loading r s s' Hf). by eexists _, _.
    + right. revert Hf. unfold fetch_done. destruct r as [m|text]; [done|].
      destruct (JSON_parse text) as [|k|] eqn:Hp; try done.
      destruct (has_slice k) eqn:Hk; [eauto|done].
  - left. split; [done|]. unfold app_render. by rewrite Hl.
Qed.

End View.
